(** * cards.js: cards, decks, the dealing shoe and hand evaluation

    A shallow embedding of [src/cards.js].

    Conventions of the embedding.
    - A JavaScript array of cards is a [list Card.t]; [a[i]] is stdpp's list
      lookup [a !! i] and [a[i] = x] is [<[i:=x]> a].
    - Reading an array or a string outside its bounds yields [undefined] in
      JavaScript.  Functions that index ([Card.new], [Deck.createDeck],
      [Deck.shuffleDeck] and their callers) return an [option]: [None] means
      that such a read produced [undefined], at which point the embedding
      stops.  The theorems show that this never happens: the functions
      return [Some].  [Array.prototype.shift] is different: its [undefined]
      on an empty array is an ordinary result and is modelled as such.
    - Integral JavaScript numbers (counts, indices, card values, scores) are
      [nat] or [Z]: binary64 numbers represent the whole numbers up to 2^53
      in absolute value and add them exactly, so on hands whose numbers stay
      within that range (the hands of cards the deck builds; [safe_hand]
      in general) the integer arithmetic is that of the code.  The fractional arithmetic of [Shoe.pastCutoff] is
      carried out on IEEE 754 binary64 numbers ([PrimFloat.float]), which is
      what a JavaScript number is.
    - [Math.random()] is a stream of future draws that is consumed one draw
      at a time; a draw is a rational number, and the contract of
      [Math.random] is that it lies in the interval from 0 (included) to 1
      (excluded).  The index [Math.floor(Math.random() * (i + 1))] of the
      shuffle is computed on rationals, exactly.
    - [console.log] appends to a console that is part of the state. *)

From Stdlib Require Import ZArith QArith Qround Lia Ascii String.
From Stdlib Require Import Floats.PrimFloat Floats.FloatOps Floats.SpecFloat.
From Stdlib Require Uint63.
From stdpp Require Import base option list strings.

Local Open Scope Z_scope.

(** The [value] of a card: a number, or (for the ace) an array of numbers. *)
Inductive Value :=
  | VNum (n : Z)
  | VArr (a : list Z).

#[global] Instance Value_eq_dec : EqDecision Value.
Proof. solve_decision. Defined.

(** ** JavaScript operations *)

Module JS.

(** [s[0]]: the first character of a string, [None] for [undefined]. *)
Definition char0 (s : string) : option ascii :=
  match s with
  | EmptyString => None
  | String c _ => Some c
  end.

(** [String.prototype.toUpperCase] on the ASCII letters. *)
Definition upper_ascii (c : ascii) : ascii :=
  let n := nat_of_ascii c in
  if (97 <=? n)%nat && (n <=? 122)%nat then ascii_of_nat (n - 32) else c.

Fixpoint toUpperCase (s : string) : string :=
  match s with
  | EmptyString => EmptyString
  | String c rest => String (upper_ascii c) (toUpperCase rest)
  end.

(** [a[i]] for a numeric index that may be negative. *)
Definition get {A} (a : list A) (i : Z) : option A :=
  if i <? 0 then None else a !! Z.to_nat i.

(** [for (let i = lo; i < lo + count; i++) body(i)] over a state [St]. *)
Fixpoint for_range {St} (lo : nat) (count : nat)
    (body : nat -> St -> option St) (s : St) : option St :=
  match count with
  | O => Some s
  | S k => s' ← body lo s; for_range (S lo) k body s'
  end.

End JS.

(** ** Card *)

Module Card.

Record t := mk {
  suit : string;
  rank : string;
  value : Value;
  image_name : string
}.

(** [new Card(suit, rank, value)] *)
Definition new (suit rank : string) (value : Value) : option t :=
  r0 ← JS.char0 rank;
  s0 ← JS.char0 suit;
  Some {| suit := suit;
          rank := rank;
          value := value;
          (* image names are first char of rank and suit. *)
          image_name := JS.toUpperCase (String r0 (String s0 EmptyString)) +:+ ".png" |}.

End Card.

#[global] Instance Card_eq_dec : EqDecision Card.t.
Proof. solve_decision. Defined.

(** ** Math *)

Module Math.

(** The state of [Math.random]: the draws still to come. *)
Definition Rng : Type := nat -> Q.

(** [Math.random()]: the next draw, and the stream without it. *)
Definition random (g : Rng) : Q * Rng :=
  (g O, fun n => g (S n)).

(** The contract of [Math.random]: every draw is in the unit interval,
    0 included and 1 excluded. *)
Definition unit_draws (g : Rng) : Prop :=
  forall n, (0 <= g n)%Q /\ (g n < 1)%Q.

(** The binary64 number nearest to an integer (exact below 2^53). *)
Definition of_Z (z : Z) : float :=
  SF2Prim (binary_normalize prec emax z 0 false).

(** [Math.floor] on binary64 numbers.  A finite number is
    [(-1)^s * m * 2^e]; with [0 <= e] it is an integer already.  NaN, the
    infinities and the zeros are returned as they are. *)
Definition floor (x : float) : float :=
  match Prim2SF x with
  | S754_finite s m e =>
      if 0 <=? e then x
      else of_Z (Z.shiftr (cond_Zopp s (Z.pos m)) (- e))
  | _ => x
  end.

End Math.

(** ** Deck *)

Module Deck.

Record t := mk { cards : list Card.t }.

(** [new Deck()] *)
Definition new : t := {| cards := [] |}.

Definition suits : list string := ["clubs"; "diamonds"; "hearts"; "spades"].
Definition ranks : list string :=
  ["ace"; "2"; "3"; "4"; "5"; "6"; "7"; "8"; "9"; "10"; "jack"; "queen"; "king"].
Definition values : list Value :=
  [VArr [1; 10]; VNum 2; VNum 3; VNum 4; VNum 5; VNum 6; VNum 7; VNum 8;
   VNum 9; VNum 10; VNum 10; VNum 10; VNum 10].

(** The body of the inner loop:
    [this.cards.push(new Card(suits[i], ranks[j], values[j]))]. *)
Definition push_card (i j : nat) (d : t) : option t :=
  s ← suits !! i;
  r ← ranks !! j;
  v ← values !! j;
  c ← Card.new s r v;
  Some {| cards := cards d ++ [c] |}.

Definition createDeck (d : t) : option t :=
  JS.for_range 0 (length suits) (fun i =>
    JS.for_range 0 (length ranks) (fun j => push_card i j)) d.

(** One turn of the loop of [shuffleDeck], at index [i]:
    [j = Math.floor(Math.random() * (i + 1)); temp = this.cards[i];
     this.cards[i] = this.cards[j]; this.cards[j] = temp]. *)
Definition shuffle_step (i : nat) (st : t * Math.Rng) : option (t * Math.Rng) :=
  let '(d, g) := st in
  let '(r, g') := Math.random g in
  let j := Qfloor (r * inject_Z (Z.of_nat i + 1)) in
  temp ← cards d !! i;
  cj ← JS.get (cards d) j;
  Some ({| cards := <[Z.to_nat j := temp]> (<[i := cj]> (cards d)) |}, g').

(** [for (i = start; i > 0; i -= 1) ...] *)
Fixpoint shuffle_loop (i : nat) (st : t * Math.Rng) : option (t * Math.Rng) :=
  match i with
  | O => Some st
  | S i' => st' ← shuffle_step i st; shuffle_loop i' st'
  end.

(** The loop starts at [this.cards.length - 1]; on an empty deck that is
    [-1] and the loop does not run, as with the truncated subtraction. *)
Definition shuffleDeck (d : t) (g : Math.Rng) : option (t * Math.Rng) :=
  shuffle_loop (length (cards d) - 1) (d, g).

End Deck.


(** ** Shoe *)

Module Shoe.

Record t := mk {
  cards : list Card.t;
  numDecks : Z;
  cutoff : float
}.

(** [this.cards = cards] *)
Definition set_cards (s : t) (cards : list Card.t) : t :=
  {| cards := cards; numDecks := numDecks s; cutoff := cutoff s |}.

(** [new Shoe(numDecks, cutoff=0.75)]; [None] for an omitted [cutoff]. *)
Definition new (numDecks : Z) (cutoff : option float) : t :=
  {| cards := [];
     numDecks := numDecks;
     cutoff := default 0.75%float cutoff |}.

(** Adds one shuffled deck to the shoe. *)
Definition addShuffledDeck (st : t * Math.Rng) : option (t * Math.Rng) :=
  let '(s, g) := st in
  deck ← Deck.createDeck Deck.new;
  '(deck', g') ← Deck.shuffleDeck deck g;
  Some (set_cards s (cards s ++ Deck.cards deck'), g').

(** [for (let i = 0; i < this.numDecks; i++) this.addShuffledDeck()].
    [addShuffledDeck] leaves [numDecks] as it is, so the loop makes
    [numDecks] turns, and none when [numDecks <= 0]. *)
Definition createShoe (s : t) (g : Math.Rng) : option (t * Math.Rng) :=
  JS.for_range 0 (Z.to_nat (numDecks s)) (fun _ => addShuffledDeck) (s, g).

(** [pastCutoff] reads the shoe; the shoe it leaves is returned with the
    result. *)
Definition pastCutoff (s : t) : bool * t :=
  let numCards := (Math.of_Z (numDecks s) * 52)%float in
  let remainingCards := Math.of_Z (Z.of_nat (length (cards s))) in
  let percentRemaining := Math.floor ((remainingCards / numCards) * 100)%float in
  ((percentRemaining <? cutoff s)%float, s).

(** What a call of [deal] produces: a card (or [undefined]) when [num] is 1,
    an array otherwise. *)
Inductive Dealt :=
  | One (c : option Card.t)
  | Many (cs : list (option Card.t)).

(** How a call of [deal] ends, with the shoe it leaves. *)
Inductive Completion :=
  | Return (v : Dealt) (s : t)
  | Throw (message : string) (s : t).

(** [this.cards.shift()]: removes and returns the first card; on an empty
    array it returns [undefined] and removes nothing. *)
Definition shift (s : t) : option Card.t * t :=
  match cards s with
  | [] => (None, s)
  | c :: rest => (Some c, set_cards s rest)
  end.

(** [for (let i = 0; i < num; i++) cards.push(this.cards.shift())], with
    [count] turns left and [dealt] the local array [cards]. *)
Fixpoint deal_loop (count : nat) (dealt : list (option Card.t)) (s : t)
    : list (option Card.t) * t :=
  match count with
  | O => (dealt, s)
  | S k => let '(c, s') := shift s in deal_loop k (dealt ++ [c]) s'
  end.

(** [deal(num=1)]; [None] for an omitted [num]. *)
Definition deal (num : option Z) (s : t) : Completion :=
  let num := default 1 num in
  if Z.of_nat (length (cards s)) <? num then Throw "Not enough cards to deal!" s
  else if num =? 1 then
    let '(c, s') := shift s in Return (One c) s'
  else
    let '(dealt, s') := deal_loop (Z.to_nat num) [] s in Return (Many dealt) s'.

End Shoe.

(** ** Hand evaluation *)

(** A line written by [console.log]: the fixed text of the template literal
    and the number interpolated after it. *)
Record LogEntry := Log { text : string; number : Z }.

(** What the evaluators can reach: the array [hand] they are handed (by
    reference) and the console. *)
Record Heap := mkHeap {
  hand : list Card.t;
  console : list LogEntry
}.

Definition console_log (e : LogEntry) (h : Heap) : Heap :=
  {| hand := hand h; console := console h ++ [e] |}.

(** [(total, {rank}) => rank === "ace" ? total + 1 : total] *)
Definition count_ace (total : nat) (c : Card.t) : nat :=
  if String.eqb (Card.rank c) "ace" then (total + 1)%nat else total.

(** [(total, {value}) => Array.isArray(value)
       ? total + value.reduce((acc, curr) => acc + curr, 0) : total + value] *)
Definition add_value (total : Z) (c : Card.t) : Z :=
  match Card.value c with
  | VArr a => total + foldl (fun acc curr => acc + curr) 0 a
  | VNum n => total + n
  end.

(** [while (score > 21 && numAces) { score -= 10; numAces--; }] *)
Fixpoint adjust (score : Z) (numAces : nat) : Z :=
  if 21 <? score then
    match numAces with
    | O => score
    | S k => adjust (score - 10) k
    end
  else score.

Definition evalHand (h : Heap) : Z * Heap :=
  (* calc num of aces *)
  let numAces := foldl count_ace O (hand h) in
  let h := console_log (Log "evalHand: numAces: " (Z.of_nat numAces)) h in
  (* calc score (aces valued at 11) *)
  let score := foldl add_value 0 (hand h) in
  let h := console_log (Log "evalHand: score: " score) h in
  (* if an ace would make you bust, make it value 1 instead of 11 *)
  let score := adjust score numAces in
  let h := console_log (Log "evalHand: return: " score) h in
  (score, h).

Definition scoreHand (h : Heap) : Z * Heap :=
  let '(value, h) := evalHand h in
  (value, h).

Definition isBust (h : Heap) : bool * Heap :=
  let '(value, h) := evalHand h in
  (21 <? value, h).

Definition belowHard17 (h : Heap) : bool * Heap :=
  let '(value, h) := evalHand h in
  (value <? 17, h).

(** ** Reference definitions used in the statements *)

(** The deck as a table: every suit in turn, and under it every rank with
    its value; [ace] is the value given to the ace.  The display name of a
    card is made of the first letters of its rank and suit. *)
Definition deck_table (ace : Value) : list Card.t :=
  s ← ["clubs"; "diamonds"; "hearts"; "spades"];
  '(r, v) ← [("ace", ace); ("2", VNum 2); ("3", VNum 3); ("4", VNum 4);
             ("5", VNum 5); ("6", VNum 6); ("7", VNum 7); ("8", VNum 8);
             ("9", VNum 9); ("10", VNum 10); ("jack", VNum 10);
             ("queen", VNum 10); ("king", VNum 10)];
  [Card.mk s r v
     (JS.toUpperCase (substring 0 1 r +:+ substring 0 1 s) +:+ ".png")].

(** The cards of a deck built by [createDeck] on a new [Deck]. *)
Definition built_cards : list Card.t :=
  from_option Deck.cards [] (Deck.createDeck Deck.new).

(** A card as built by the deck. *)
Definition built (c : Card.t) : Prop := c ∈ built_cards.

(** The share of the cards that is left in a shoe, out of 100 and rounded
    down: [floor((cards.length / (numDecks * 52)) * 100)]. *)
Definition percent_remaining (s : Shoe.t) : float :=
  Math.floor
    (Math.of_Z (Z.of_nat (length (Shoe.cards s)))
     / (Math.of_Z (Shoe.numDecks s) * 52) * 100)%float.

(** The binary64 number of a whole number below 2^63, by the conversion of
    the machine integers. *)
Definition whole (q : Z) : float := PrimFloat.of_uint63 (Uint63.of_Z q).

(** The shoes of ordinary size by their numbers: 1 to 8 decks, and of cards
    none to all [52 * numDecks]. *)
Definition ordinary_sizes : list (nat * nat) :=
  k ← seq 1 8; n ← seq 0 (52 * k + 1); [(k, n)].

(** A shoe for [numDecks] decks that holds the first [n] cards of that many
    built decks, for the examples. *)
Definition shoe_of (n : nat) (numDecks : Z) : Shoe.t :=
  Shoe.set_cards (Shoe.new numDecks None)
    (take n (concat (replicate (Z.to_nat numDecks) built_cards))).

(** A stream of draws that are all one half, and one whose draws are all 1
    (which [Math.random] never returns), for the examples. *)
Definition half_draws : Math.Rng := fun _ => (1 # 2)%Q.
Definition bad_draws : Math.Rng := fun _ => 1%Q.

(** Two of the built cards, for the examples. *)
Definition ace_of_clubs : Card.t := Card.mk "clubs" "ace" (VArr [1; 10]) "AC.png".
Definition king_of_hearts : Card.t := Card.mk "hearts" "king" (VNum 10) "KH.png".

(** The two reductions of [evalHand], by name. *)
Definition ace_count (cs : list Card.t) : nat := foldl count_ace O cs.
Definition raw_score (cs : list Card.t) : Z := foldl add_value 0 cs.

(** The three lines [evalHand] writes to the console. *)
Definition evalHand_log (numAces : nat) (score result : Z) : list LogEntry :=
  [Log "evalHand: numAces: " (Z.of_nat numAces);
   Log "evalHand: score: " score;
   Log "evalHand: return: " result].

(** What a card can count for in blackjack: an ace 1 or 11, any other card
    its number. *)
Definition counts (c : Card.t) : list Z :=
  if String.eqb (Card.rank c) "ace" then [1; 11]
  else match Card.value c with
       | VNum n => [n]
       | VArr _ => []
       end.

(** All totals of a hand, over the ways of counting its aces. *)
Fixpoint totals (cs : list Card.t) : list Z :=
  match cs with
  | [] => [0]
  | c :: rest => x ← counts c; t ← totals rest; [x + t]
  end.

(** The shape of a built card: the ace carries the array [[1, 10]], every
    other card a number from 2 to 10. *)
Definition built_shape (c : Card.t) : bool :=
  if String.eqb (Card.rank c) "ace" then bool_decide (Card.value c = VArr [1; 10])
  else match Card.value c with
       | VNum n => (2 <=? n) && (n <=? 10)
       | VArr _ => false
       end.

(** The blackjack value of a hand: the largest total not above 21, or the
    smallest total when every total is above 21. *)
Definition blackjack_value (cs : list Card.t) (v : Z) : Prop :=
  v ∈ totals cs /\
  ((v <= 21 /\ forall t, t ∈ totals cs -> t <= 21 -> t <= v) \/
   (forall t, t ∈ totals cs -> 21 < t /\ v <= t)).

(** ** Hands within the exact range *)

(** How large the numbers of a card are: the absolute value of its number,
    or of the elements of its array taken together. *)
Definition magnitude (c : Card.t) : Z :=
  match Card.value c with
  | VNum n => Z.abs n
  | VArr a => foldr (fun x acc => Z.abs x + acc) 0 a
  end.

Definition total_magnitude (cs : list Card.t) : Z :=
  foldr (fun c acc => magnitude c + acc) 0 cs.

(** A hand is within the exact range when the magnitudes of its cards and
    10 for each card of rank ace add up to no more than 2^53.  Every sum and
    difference [evalHand] then forms is a whole number of absolute value at
    most 2^53, which binary64 numbers represent and add exactly: on such a
    hand the integer arithmetic of [add_value] and [adjust] is the
    arithmetic of the code.  A hand of built cards that an array can hold
    is within the range. *)
Definition safe_hand (cs : list Card.t) : Prop :=
  total_magnitude cs + 10 * Z.of_nat (ace_count cs) <= 2 ^ 53.

(** ** Callers, for the statements about runs of calls *)

(** The cards a call of [deal] hands out, as one array. *)
Definition dealt_list (v : Shoe.Dealt) : list (option Card.t) :=
  match v with
  | Shoe.One c => [c]
  | Shoe.Many cs => cs
  end.

(** The shoe a call of [deal] leaves, returning or throwing. *)
Definition shoe_after (c : Shoe.Completion) : Shoe.t :=
  match c with
  | Shoe.Return _ s => s
  | Shoe.Throw _ s => s
  end.

(** A caller that makes one call [deal(num)] after another, for the numbers
    of [nums] in turn, and catches the error of a call that throws: the shoe
    at the end. *)
Definition deals (nums : list Z) (s : Shoe.t) : Shoe.t :=
  foldl (fun s num => shoe_after (Shoe.deal (Some num) s)) s nums.

(** The stream of draws after its first [n]. *)
Definition after_draws (n : nat) (g : Math.Rng) : Math.Rng :=
  fun m => g (m + n)%nat.

(** A stream whose draws are all 0. *)
Definition zero_draws : Math.Rng := fun _ => 0%Q.

(** Tactics *)

(** [x + t] is a total of [c :: cs] when [x] is a count of [c] and [t], the
    raw score of [cs] less 10 for [k] of its aces, is a total of [cs]. *)
Ltac total_with IH x k :=
  exists x; split; [| repeat constructor];
  apply list_elem_of_bind;
  match goal with
  | |- context [totals ?cs] =>
      exists (raw_score cs - 10 * Z.of_nat k);
      split; [apply list_elem_of_singleton; lia |];
      apply IH; exists k; split; [lia | reflexivity]
  end.

(** ** The deck *)

Lemma createDeck_new :
  Deck.createDeck Deck.new = Some (Deck.mk (deck_table (VArr [1; 10]))).
Proof. vm_compute. reflexivity. Qed.

(** [createDeck] pushes the 52 cards after those the deck already has: a
    second call adds a second set. *)
Lemma createDeck_appends d :
  Deck.createDeck d
  = Some (Deck.mk (Deck.cards d ++ deck_table (VArr [1; 10]))).
Proof.
  destruct d as [cs]. unfold Deck.createDeck. cbn -[app].
  repeat rewrite <- app_assoc. reflexivity.
Qed.

Lemma built_cards_table : built_cards = deck_table (VArr [1; 10]).
Proof. unfold built_cards. rewrite createDeck_new. reflexivity. Qed.

Lemma length_built_cards : length built_cards = 52%nat.
Proof. rewrite built_cards_table. reflexivity. Qed.

Lemma built_shape_all : forallb built_shape built_cards = true.
Proof. vm_compute. reflexivity. Qed.

Lemma built_inv c :
  built c ->
  (String.eqb (Card.rank c) "ace" = true /\ Card.value c = VArr [1; 10]) \/
  (String.eqb (Card.rank c) "ace" = false /\ exists n, Card.value c = VNum n /\ 2 <= n <= 10).
Proof.
  intros Hc. apply list_elem_of_In in Hc.
  pose proof (proj1 (forallb_forall _ _) built_shape_all c Hc) as Hs.
  unfold built_shape in Hs. destruct (String.eqb (Card.rank c) "ace").
  - left. split; [reflexivity | exact (bool_decide_eq_true_1 _ Hs)].
  - right. split; [reflexivity |]. destruct (Card.value c) as [n | a]; [| discriminate].
    exists n. split; [reflexivity | lia].
Qed.

Lemma built_ace_of_clubs : built ace_of_clubs.
Proof. unfold built. rewrite built_cards_table. vm_compute. repeat constructor. Qed.

Lemma built_king_of_hearts : built king_of_hearts.
Proof. unfold built. rewrite built_cards_table. vm_compute. repeat constructor. Qed.

(** C2, the claim as written, fails: the deck gives the ace the array
    [[1, 10]], not [[1, 11]].  The first card built is the ace of clubs, and
    the deck differs from the table whose aces carry [[1, 11]]. *)
Lemma createDeck_ace_is_not_1_11 :
  (Deck.cards <$> Deck.createDeck Deck.new) ≫= head = Some ace_of_clubs
  /\ Card.value ace_of_clubs <> VArr [1; 11]
  /\ Deck.createDeck Deck.new <> Some (Deck.mk (deck_table (VArr [1; 11]))).
Proof.
  split; [| split].
  - rewrite createDeck_new. reflexivity.
  - discriminate.
  - rewrite createDeck_new. intros H. inversion H.
Qed.

(** C2, as amended: [createDeck] on a new [Deck] returns, and leaves exactly
    52 cards, one for every pair of a suit and a rank, suits in the order
    clubs, diamonds, hearts, spades and under each suit the ranks in the
    order ace, 2, ..., 10, jack, queen, king, with the values [[1, 10]] for the
    ace, 2, ..., 10 for the number cards and 10 for jack, queen and king. *)
Theorem createDeck_builds_the_52_cards :
  exists d,
    Deck.createDeck Deck.new = Some d
    /\ Deck.cards d = deck_table (VArr [1; 10])
    /\ length (Deck.cards d) = 52%nat
    /\ (fun c => (Card.suit c, Card.rank c)) <$> Deck.cards d
       = (s ← Deck.suits; r ← Deck.ranks; [(s, r)])
    /\ NoDup ((fun c => (Card.suit c, Card.rank c)) <$> Deck.cards d)
    /\ (fun c => (Card.rank c, Card.value c)) <$> take 13 (Deck.cards d)
       = zip Deck.ranks Deck.values.
Proof.
  eexists. split; [apply createDeck_new |]. cbn [Deck.cards].
  split; [reflexivity |]. split; [reflexivity |]. split; [reflexivity |].
  split; [| reflexivity].
  apply (bool_decide_unpack _). vm_compute. exact I.
Qed.

(** ** Hand evaluation *)

Lemma evalHand_unfold cs out :
  evalHand (mkHeap cs out)
  = (adjust (raw_score cs) (ace_count cs),
     mkHeap cs (out ++ evalHand_log (ace_count cs) (raw_score cs)
                         (adjust (raw_score cs) (ace_count cs)))).
Proof.
  unfold evalHand, console_log, evalHand_log, raw_score, ace_count. cbn [hand console].
  rewrite <- !app_assoc. reflexivity.
Qed.

Lemma foldl_count_ace n cs :
  foldl count_ace n cs = (n + ace_count cs)%nat.
Proof.
  unfold ace_count. revert n. induction cs as [| c cs IH]; intros n; cbn [foldl].
  - lia.
  - rewrite (IH (count_ace n c)), (IH (count_ace O c)).
    unfold count_ace. destruct (String.eqb (Card.rank c) "ace"); lia.
Qed.

Lemma foldl_add_value acc cs :
  foldl add_value acc cs = acc + raw_score cs.
Proof.
  unfold raw_score. revert acc. induction cs as [| c cs IH]; intros acc; cbn [foldl].
  - lia.
  - rewrite (IH (add_value acc c)), (IH (add_value 0 c)).
    unfold add_value. destruct (Card.value c); lia.
Qed.

Lemma ace_count_cons c cs :
  ace_count (c :: cs)
  = ((if String.eqb (Card.rank c) "ace" then 1 else 0) + ace_count cs)%nat.
Proof.
  unfold ace_count at 1. cbn [foldl]. rewrite foldl_count_ace.
  unfold count_ace. destruct (String.eqb (Card.rank c) "ace"); reflexivity.
Qed.

Lemma raw_score_cons c cs :
  raw_score (c :: cs) = add_value 0 c + raw_score cs.
Proof. unfold raw_score at 1. cbn [foldl]. apply foldl_add_value. Qed.

(** C1, the claim as written, fails: a hand of the single ace of clubs, a
    card the deck builds, has the raw score 11 and [evalHand] returns 11,
    not 12. *)
Lemma evalHand_single_ace_is_not_12 :
  built ace_of_clubs
  /\ raw_score [ace_of_clubs] = 11
  /\ fst (evalHand (mkHeap [ace_of_clubs] [])) = 11
  /\ fst (evalHand (mkHeap [ace_of_clubs] [])) <> 12.
Proof.
  split; [apply built_ace_of_clubs |].
  rewrite evalHand_unfold. cbn. repeat split; discriminate.
Qed.

(** C1, as amended: for a hand of a single ace as built by the deck, the raw
    sum adds both elements of the ace's array [[1, 10]], so the raw score is
    11; 11 is not above 21, so no adjustment is made, and [evalHand] returns
    11 (and leaves the hand as it was, having logged one ace, the score 11
    and the result 11). *)
Theorem evalHand_single_ace c out :
  built c -> Card.rank c = "ace" ->
  raw_score [c] = 11
  /\ (21 <? raw_score [c]) = false
  /\ adjust (raw_score [c]) (ace_count [c]) = raw_score [c]
  /\ evalHand (mkHeap [c] out) = (11, mkHeap [c] (out ++ evalHand_log 1 11 11)).
Proof.
  intros Hb Hr. rewrite evalHand_unfold.
  destruct (built_inv c Hb) as [[He Hv] | [He _]].
  - assert (Hs : raw_score [c] = 11).
    { unfold raw_score, add_value. cbn [foldl]. rewrite Hv. reflexivity. }
    assert (Hn : ace_count [c] = 1%nat).
    { rewrite ace_count_cons, He. reflexivity. }
    rewrite Hs, Hn. repeat split.
  - rewrite Hr in He. discriminate.
Qed.

Lemma evalHand_single_ace_witness :
  raw_score [ace_of_clubs] = 11
  /\ (21 <? raw_score [ace_of_clubs]) = false
  /\ adjust (raw_score [ace_of_clubs]) (ace_count [ace_of_clubs])
     = raw_score [ace_of_clubs]
  /\ evalHand (mkHeap [ace_of_clubs] [])
     = (11, mkHeap [ace_of_clubs] ([] ++ evalHand_log 1 11 11)).
Proof.
  apply (evalHand_single_ace ace_of_clubs []).
  - apply built_ace_of_clubs.
  - reflexivity.
Defined.

(** C8: on the empty hand [evalHand] returns 0, having counted 0 aces; so
    [isBust] returns false and [belowHard17] returns true. *)
Theorem evaluators_on_the_empty_hand out :
  ace_count [] = O
  /\ evalHand (mkHeap [] out) = (0, mkHeap [] (out ++ evalHand_log 0 0 0))
  /\ fst (scoreHand (mkHeap [] out)) = 0
  /\ fst (isBust (mkHeap [] out)) = false
  /\ fst (belowHard17 (mkHeap [] out)) = true.
Proof.
  assert (He : evalHand (mkHeap [] out) = (0, mkHeap [] (out ++ evalHand_log 0 0 0))).
  { rewrite evalHand_unfold. reflexivity. }
  unfold scoreHand, isBust, belowHard17. rewrite He. repeat split.
Qed.

(** C9: none of [evalHand], [scoreHand], [isBust] and [belowHard17] changes
    the hand it is given (the array, and with it every field of every card,
    is after the call what it was before); [scoreHand] returns what
    [evalHand] returns, and the other two compare that result with 21 and
    with 17. *)
Theorem evaluators_leave_the_hand h :
  hand (snd (evalHand h)) = hand h
  /\ hand (snd (scoreHand h)) = hand h
  /\ hand (snd (isBust h)) = hand h
  /\ hand (snd (belowHard17 h)) = hand h
  /\ scoreHand h = evalHand h
  /\ fst (isBust h) = (21 <? fst (evalHand h))
  /\ fst (belowHard17 h) = (fst (evalHand h) <? 17).
Proof.
  destruct h as [cs out].
  unfold scoreHand, isBust, belowHard17. rewrite evalHand_unfold.
  cbn [fst snd hand]. repeat split.
Qed.

(** *** The value returned is the blackjack value *)

(** The loop of [evalHand] takes 10 off [k] times, where [k] is the least
    number, at most [numAces], of subtractions after which the score is at
    most 21, and [numAces] when there is none. *)
Lemma adjust_steps numAces score :
  exists k : nat,
    (k <= numAces)%nat
    /\ adjust score numAces = score - 10 * Z.of_nat k
    /\ (adjust score numAces <= 21 \/ k = numAces)
    /\ forall k' : nat, (k' < k)%nat -> 21 < score - 10 * Z.of_nat k'.
Proof.
  revert score. induction numAces as [| n IH]; intros score; cbn [adjust].
  - exists O. destruct (Z.ltb_spec 21 score); repeat split; try lia; auto.
  - destruct (Z.ltb_spec 21 score) as [Hgt | Hle].
    + destruct (IH (score - 10)) as (k & Hk & Heq & Hstop & Hbefore).
      exists (S k). split; [lia |]. split; [lia |]. split; [lia |].
      intros [| k'] Hlt; [lia |].
      specialize (Hbefore k' ltac:(lia)). lia.
    + exists O. repeat split; try lia; auto.
Qed.

Lemma counts_built c :
  built c ->
  (String.eqb (Card.rank c) "ace" = true /\ counts c = [1; 11] /\ add_value 0 c = 11)
  \/ (String.eqb (Card.rank c) "ace" = false /\ counts c = [add_value 0 c]).
Proof.
  intros Hb. unfold counts, add_value.
  destruct (built_inv c Hb) as [[He Hv] | [He (n & Hv & _)]]; rewrite He, Hv.
  - left. repeat split.
  - right. repeat split.
Qed.

(** The totals of a hand of built cards are the raw score less 10 for each
    of any number of its aces. *)
Lemma totals_built cs :
  Forall built cs ->
  forall t, t ∈ totals cs <->
    exists k : nat, (k <= ace_count cs)%nat /\ t = raw_score cs - 10 * Z.of_nat k.
Proof.
  induction 1 as [| c cs Hc Hcs IH]; intros t.
  - cbn. rewrite list_elem_of_singleton. split.
    + intros ->. exists O. split; [lia | reflexivity].
    + intros (k & Hk & ->). unfold ace_count in Hk. cbn in Hk.
      replace k with O by lia. reflexivity.
  - cbn [totals]. rewrite ace_count_cons, raw_score_cons, list_elem_of_bind.
    destruct (counts_built c Hc) as [(He & Hx & Hv) | (He & Hx)];
      rewrite He, Hx; clear He Hx.
    + rewrite Hv. split.
      * intros (x & Ht & Hin). apply list_elem_of_bind in Ht as (t' & Ht & Ht').
        apply list_elem_of_singleton in Ht as ->.
        apply IH in Ht' as (k & Hk & ->).
        apply elem_of_cons in Hin as [-> | Hin].
        -- exists (S k). split; lia.
        -- apply list_elem_of_singleton in Hin as ->. exists k. split; lia.
      * intros (k & Hk & ->).
        destruct (decide (k <= ace_count cs)%nat) as [Hle | Hgt].
        -- total_with IH 11 k.
        -- total_with IH 1 (ace_count cs).
    + split.
      * intros (x & Ht & Hin). apply list_elem_of_singleton in Hin as ->.
        apply list_elem_of_bind in Ht as (t' & Ht & Ht').
        apply list_elem_of_singleton in Ht as ->.
        apply IH in Ht' as (k & Hk & ->). exists k. split; lia.
      * intros (k & Hk & ->). total_with IH (add_value 0 c) k.
Qed.

(** A hand has at most one blackjack value. *)
Lemma blackjack_value_unique cs v v' :
  blackjack_value cs v -> blackjack_value cs v' -> v = v'.
Proof.
  intros [Hv [[Hle Hmax] | Hmin]] [Hv' [[Hle' Hmax'] | Hmin']].
  - specialize (Hmax v' Hv' Hle'). specialize (Hmax' v Hv Hle). lia.
  - destruct (Hmin' v Hv). lia.
  - destruct (Hmin v' Hv'). lia.
  - destruct (Hmin v' Hv'). destruct (Hmin' v Hv). lia.
Qed.

(** C10: the ace is built with the array [[1, 10]], whose elements add up to
    11, and on every hand of cards as the deck builds them [evalHand] returns
    the blackjack value of the hand: the largest total not above 21 that
    counting each ace as 1 or as 11 can give, or the smallest total when
    every such total is above 21. *)
Theorem evalHand_is_the_blackjack_value cs out :
  Forall built cs ->
  blackjack_value cs (fst (evalHand (mkHeap cs out))).
Proof.
  intros Hcs. rewrite evalHand_unfold. cbn [fst].
  pose proof (totals_built cs Hcs) as Htot.
  destruct (adjust_steps (ace_count cs) (raw_score cs))
    as (k & Hk & Heq & Hstop & Hbefore).
  rewrite Heq in *. split.
  - apply Htot. exists k. split; [exact Hk | reflexivity].
  - destruct (Z.le_gt_cases (raw_score cs - 10 * Z.of_nat k) 21) as [Hle | Hgt].
    + left. split; [exact Hle |]. intros t Ht Ht21.
      apply Htot in Ht as (k' & Hk' & ->).
      destruct (decide (k' < k)%nat) as [Hlt | Hge]; [| lia].
      specialize (Hbefore k' Hlt). lia.
    + right. intros t Ht. apply Htot in Ht as (k' & Hk' & ->).
      assert (k = ace_count cs) by (destruct Hstop; [lia | assumption]).
      split; lia.
Qed.

Lemma evalHand_is_the_blackjack_value_witness :
  blackjack_value [ace_of_clubs; king_of_hearts]
    (fst (evalHand (mkHeap [ace_of_clubs; king_of_hearts] []))).
Proof.
  apply (evalHand_is_the_blackjack_value [ace_of_clubs; king_of_hearts] []).
  constructor; [apply built_ace_of_clubs |].
  constructor; [apply built_king_of_hearts | constructor].
Defined.

Example evalHand_ace :
  fst (evalHand (mkHeap [ace_of_clubs] [])) = 11.
Proof. reflexivity. Qed.

Example evalHand_ace_king :
  fst (evalHand (mkHeap [ace_of_clubs; king_of_hearts] [])) = 21.
Proof. reflexivity. Qed.

Example evalHand_ace_ace :
  fst (evalHand (mkHeap [ace_of_clubs; ace_of_clubs] [])) = 12.
Proof. reflexivity. Qed.

Example evalHand_three_kings :
  fst (evalHand (mkHeap [king_of_hearts; king_of_hearts; king_of_hearts] [])) = 30
  /\ fst (isBust (mkHeap [king_of_hearts; king_of_hearts; king_of_hearts] [])) = true.
Proof. split; reflexivity. Qed.

(** ** The shoe: dealing *)

Lemma set_cards_same s : Shoe.set_cards s (Shoe.cards s) = s.
Proof. destruct s. reflexivity. Qed.

Lemma set_cards_twice s cs cs' :
  Shoe.set_cards (Shoe.set_cards s cs) cs' = Shoe.set_cards s cs'.
Proof. reflexivity. Qed.

(** The loop of [deal] moves cards from the front of the shoe to the end of
    the array it fills, as long as the shoe has that many. *)
Lemma deal_loop_take count : forall dealt s,
  (count <= length (Shoe.cards s))%nat ->
  Shoe.deal_loop count dealt s
  = (dealt ++ (Some <$> take count (Shoe.cards s)),
     Shoe.set_cards s (drop count (Shoe.cards s))).
Proof.
  induction count as [| k IH]; intros dealt s Hlen; cbn [Shoe.deal_loop].
  - rewrite take_0, drop_0, app_nil_r, set_cards_same. reflexivity.
  - unfold Shoe.shift. destruct (Shoe.cards s) as [| c rest] eqn:Hcs.
    + cbn in Hlen. lia.
    + rewrite IH by (cbn in *; lia). cbn [Shoe.set_cards Shoe.cards].
      rewrite <- app_assoc. reflexivity.
Qed.

(** C3: when the shoe holds fewer than [num] cards, [deal(num)] throws the
    error "Not enough cards to deal!" and leaves the shoe as it was; it is
    the only error [deal] throws; and [deal] returns exactly when the shoe
    holds at least [num] cards.  An omitted [num] is 1. *)
Theorem deal_throws_when_cards_are_short s num :
  (Z.of_nat (length (Shoe.cards s)) < num ->
     Shoe.deal (Some num) s = Shoe.Throw "Not enough cards to deal!" s)
  /\ (forall message s',
        Shoe.deal (Some num) s = Shoe.Throw message s' ->
        message = "Not enough cards to deal!" /\ s' = s
        /\ Z.of_nat (length (Shoe.cards s)) < num)
  /\ ((exists v s', Shoe.deal (Some num) s = Shoe.Return v s')
      <-> num <= Z.of_nat (length (Shoe.cards s)))
  /\ Shoe.deal None s = Shoe.deal (Some 1) s.
Proof.
  unfold Shoe.deal. cbv [default from_option id].
  destruct (Z.ltb_spec (Z.of_nat (length (Shoe.cards s))) num) as [Hlt | Hge].
  - split; [reflexivity |]. split.
    + intros message s' H. injection H as <- <-. repeat split. exact Hlt.
    + split; [| reflexivity]. split; [| lia].
      intros (v & s' & H). discriminate H.
  - split; [lia |].
    destruct (num =? 1); [destruct (Shoe.shift s) as [c s1]
                         | destruct (Shoe.deal_loop (Z.to_nat num) [] s) as [cs s1]].
    all: split; [intros message s' H; discriminate H |].
    all: split; [| reflexivity]; split; [lia | eauto].
Qed.

Lemma deal_throws_when_cards_are_short_witness :
  Shoe.deal (Some 5) (shoe_of 3 1)
  = Shoe.Throw "Not enough cards to deal!" (shoe_of 3 1).
Proof.
  apply (proj1 (deal_throws_when_cards_are_short (shoe_of 3 1) 5)).
  vm_compute. reflexivity.
Defined.

(** C4: on a shoe that holds at least [num] cards, [deal(1)] returns the
    front card itself and leaves the cards after it, one fewer; for [num]
    above 1, [deal(num)] returns an array of exactly [num] cards, the first
    [num] cards of the shoe in their order, and leaves the cards after
    them in their order. *)
Theorem deal_takes_from_the_front s num :
  num <= Z.of_nat (length (Shoe.cards s)) ->
  (num = 1 ->
     exists c rest,
       Shoe.cards s = c :: rest
       /\ Shoe.deal (Some num) s = Shoe.Return (Shoe.One (Some c)) (Shoe.set_cards s rest)
       /\ length rest = (length (Shoe.cards s) - 1)%nat)
  /\ (1 < num ->
       Shoe.deal (Some num) s
       = Shoe.Return (Shoe.Many (Some <$> take (Z.to_nat num) (Shoe.cards s)))
                     (Shoe.set_cards s (drop (Z.to_nat num) (Shoe.cards s)))
       /\ Z.of_nat (length (take (Z.to_nat num) (Shoe.cards s))) = num
       /\ take (Z.to_nat num) (Shoe.cards s) ++ drop (Z.to_nat num) (Shoe.cards s)
          = Shoe.cards s).
Proof.
  intros Hlen. unfold Shoe.deal. cbv [default from_option id].
  destruct (Z.ltb_spec (Z.of_nat (length (Shoe.cards s))) num) as [Hlt | _]; [lia |].
  split.
  - intros ->. cbn [Z.eqb Pos.eqb]. unfold Shoe.shift.
    destruct (Shoe.cards s) as [| c rest] eqn:Hcs; [cbn in Hlen; lia |].
    exists c, rest. split; [reflexivity |]. split; [reflexivity |].
    cbn [length]. lia.
  - intros Hnum. destruct (Z.eqb_spec num 1) as [-> | _]; [lia |].
    rewrite deal_loop_take by lia. cbn [app].
    split; [reflexivity |]. split; [| apply take_drop].
    rewrite length_take. lia.
Qed.

Lemma deal_takes_from_the_front_witness :
  Shoe.deal (Some 2) (shoe_of 3 1)
  = Shoe.Return (Shoe.Many (Some <$> take 2 (Shoe.cards (shoe_of 3 1))))
                (Shoe.set_cards (shoe_of 3 1) (drop 2 (Shoe.cards (shoe_of 3 1)))).
Proof.
  assert (H : 2 <= Z.of_nat (length (Shoe.cards (shoe_of 3 1))))
    by (vm_compute; discriminate).
  apply (proj2 (deal_takes_from_the_front (shoe_of 3 1) 2 H)). lia.
Defined.

Example deal_one_of_52 :
  exists c rest,
    Shoe.deal None (shoe_of 52 1) = Shoe.Return (Shoe.One (Some c)) (Shoe.set_cards (shoe_of 52 1) rest)
    /\ length rest = 51%nat.
Proof. eexists _, _. split; vm_compute; reflexivity. Qed.

(** ** The shoe: the cut point *)

(** The share depends on the number of cards only, not on the cards. *)
Lemma percent_remaining_by_length s :
  percent_remaining s
  = percent_remaining
      (Shoe.mk (replicate (length (Shoe.cards s)) ace_of_clubs)
               (Shoe.numDecks s) 0.75%float).
Proof.
  unfold percent_remaining. cbn [Shoe.cards Shoe.numDecks].
  rewrite length_replicate. reflexivity.
Qed.

(** Two functions with the same values along a list agree on its elements. *)
Lemma fmap_eq_elem_of {A B} (f g : A -> B) (l : list A) (x : A) :
  f <$> l = g <$> l -> x ∈ l -> f x = g x.
Proof.
  induction l as [| y l IH]; intros Heq Hx; [inversion Hx |].
  cbn [fmap list_fmap] in Heq. injection Heq as Hy Hl.
  apply elem_of_cons in Hx as [-> | Hx]; [exact Hy | apply IH; assumption].
Qed.

(** For every shoe of ordinary size the share computed is the whole number
    [100 * cards.length / (52 * numDecks)], the division being that of
    integers, rounded down; each case is evaluated. *)
Lemma percent_remaining_of_ordinary_sizes :
  (fun '(k, n) =>
     percent_remaining
       (Shoe.mk (replicate n ace_of_clubs) (Z.of_nat k) 0.75%float))
    <$> ordinary_sizes
  = (fun '(k, n) => whole (100 * Z.of_nat n / (52 * Z.of_nat k)))
    <$> ordinary_sizes.
Proof. vm_compute. reflexivity. Qed.

Lemma elem_of_ordinary_sizes k n :
  (1 <= k <= 8)%nat -> (n <= 52 * k)%nat -> (k, n) ∈ ordinary_sizes.
Proof.
  intros Hk Hn. unfold ordinary_sizes.
  apply list_elem_of_bind. exists k. split; [| apply elem_of_seq; lia].
  apply list_elem_of_bind. exists n. split; [| apply elem_of_seq; lia].
  apply list_elem_of_singleton. reflexivity.
Qed.

(** C6: [pastCutoff] returns true exactly when
    [floor((cards.length / (numDecks * 52)) * 100)] is below [cutoff], the
    arithmetic being that of binary64 numbers, and leaves the shoe as it
    was; the cutoff of a shoe made without one is 0.75.  The number compared
    with the cutoff is on the scale from 0 to 100 and rounded down: for
    every shoe of 1 to 8 decks that holds no more than its
    [52 * numDecks] cards it is the whole number
    [100 * cards.length / (52 * numDecks)] of the integer division, so
    [pastCutoff] is true exactly when that whole number is below
    [cutoff], whatever the cutoff. *)
Theorem pastCutoff_compares_percent_with_cutoff s :
  (fst (Shoe.pastCutoff s) = true
   <-> (percent_remaining s <? Shoe.cutoff s)%float = true)
  /\ snd (Shoe.pastCutoff s) = s
  /\ (forall numDecks, Shoe.cutoff (Shoe.new numDecks None) = 0.75%float)
  /\ (1 <= Shoe.numDecks s <= 8 ->
      Z.of_nat (length (Shoe.cards s)) <= 52 * Shoe.numDecks s ->
      0 <= 100 * Z.of_nat (length (Shoe.cards s)) / (52 * Shoe.numDecks s) <= 100
      /\ percent_remaining s
         = whole (100 * Z.of_nat (length (Shoe.cards s)) / (52 * Shoe.numDecks s))
      /\ fst (Shoe.pastCutoff s)
         = (whole (100 * Z.of_nat (length (Shoe.cards s)) / (52 * Shoe.numDecks s))
            <? Shoe.cutoff s)%float).
Proof.
  assert (Hlit : fst (Shoe.pastCutoff s)
                 = (percent_remaining s <? Shoe.cutoff s)%float) by reflexivity.
  split; [rewrite Hlit; reflexivity |]. split; [reflexivity |].
  split; [reflexivity |]. intros Hk Hn.
  assert (Hpct : percent_remaining s
                 = whole (100 * Z.of_nat (length (Shoe.cards s))
                          / (52 * Shoe.numDecks s))).
  { rewrite percent_remaining_by_length.
    assert (Hin : (Z.to_nat (Shoe.numDecks s), length (Shoe.cards s))
                  ∈ ordinary_sizes) by (apply elem_of_ordinary_sizes; lia).
    pose proof (fmap_eq_elem_of _ _ _ _ percent_remaining_of_ordinary_sizes Hin)
      as Hcase.
    cbn beta iota in Hcase. rewrite Z2Nat.id in Hcase by lia. exact Hcase. }
  split; [| split; [exact Hpct | rewrite Hlit, Hpct; reflexivity]].
  split; [apply Z.div_pos; lia |].
  apply Z.div_le_upper_bound; lia.
Qed.

(** With the cutoff 0.75 that a shoe has when none is given, a one-deck shoe
    is past the cut point only when it is empty: the share that is compared
    with 0.75 is on the scale from 0 to 100. *)
Lemma pastCutoff_one_deck n :
  (n <= 52)%nat ->
  fst (Shoe.pastCutoff (shoe_of n 1)) = bool_decide (n = O).
Proof.
  intros Hn.
  assert (Hall : forallb (fun m => bool_decide
                   (fst (Shoe.pastCutoff (shoe_of m 1)) = bool_decide (m = O)))
                   (seq 0 53) = true) by (vm_compute; reflexivity).
  rewrite forallb_forall in Hall.
  apply (bool_decide_eq_true_1 _), Hall, in_seq. lia.
Qed.

(** The division and the multiplication round: with 377 cards left of 25
    decks (29 in 100) the share computed is 28. *)
Example percent_remaining_rounds :
  length (Shoe.cards (shoe_of 377 25)) = 377%nat
  /\ percent_remaining (shoe_of 377 25) = 28%float.
Proof. split; vm_compute; reflexivity. Qed.

(** Without decks the division is 0 / 0, not a number, and the comparison
    is false. *)
Example pastCutoff_no_decks :
  fst (Shoe.pastCutoff (Shoe.new 0 None)) = false.
Proof. vm_compute. reflexivity. Qed.

(** ** Shuffling *)

(** A draw of [Math.random] at index [i] picks an index from 0 to [i]. *)
Lemma draw_index_in_range (r : Q) (i : nat) :
  (0 <= r)%Q -> (r < 1)%Q ->
  0 <= Qfloor (r * inject_Z (Z.of_nat i + 1)) <= Z.of_nat i.
Proof.
  intros H0 H1. set (n := Z.of_nat i + 1).
  assert (Hn : (inject_Z 0 < inject_Z n)%Q) by (rewrite <- Zlt_Qlt; lia).
  split.
  - change 0 with (Qfloor 0). apply Qfloor_resp_le.
    apply Qmult_le_0_compat; [exact H0 | apply Qlt_le_weak, Hn].
  - assert (Hlt : (inject_Z (Qfloor (r * inject_Z n)) < inject_Z n)%Q).
    { eapply Qle_lt_trans; [apply Qfloor_le |].
      rewrite <- (Qmult_1_l (inject_Z n)) at 2.
      apply Qmult_lt_compat_r; assumption. }
    rewrite <- Zlt_Qlt in Hlt. lia.
Qed.

Lemma unit_draws_next g :
  Math.unit_draws g -> Math.unit_draws (snd (Math.random g)).
Proof. intros Hg n. apply (Hg (S n)). Qed.

(** Exchanging two elements of an array rearranges it. *)
Lemma exchange_Permutation {A} (l : list A) (i j : nat) (x y : A) :
  l !! i = Some x -> l !! j = Some y ->
  <[j := x]> (<[i := y]> l) ≡ₚ l.
Proof.
  intros Hi Hj.
  pose proof (lookup_lt_Some _ _ _ Hi) as Hli.
  pose proof (lookup_lt_Some _ _ _ Hj) as Hlj.
  apply Permutation_inj. split; [rewrite !length_insert; reflexivity |].
  exists (fun k => if decide (k = i) then j else if decide (k = j) then i else k).
  split.
  - intros a b Hab. cbv beta in Hab. repeat case_decide; subst; lia.
  - intros k. rewrite !list_lookup_insert, !length_insert.
    repeat case_decide; destruct_and?; subst; try congruence; lia.
Qed.

(** One turn of the shuffle at an index inside the deck returns, and
    rearranges the deck. *)
Lemma shuffle_step_Permutation i d g :
  Math.unit_draws g -> (i < length (Deck.cards d))%nat ->
  exists d' g',
    Deck.shuffle_step i (d, g) = Some (d', g')
    /\ Deck.cards d' ≡ₚ Deck.cards d
    /\ Math.unit_draws g'.
Proof.
  intros Hg Hi. unfold Deck.shuffle_step, Math.random.
  destruct (Hg O) as [H0 H1].
  pose proof (draw_index_in_range (g O) i H0 H1) as Hj.
  set (j := Qfloor (g O * inject_Z (Z.of_nat i + 1))) in *.
  destruct (lookup_lt_is_Some_2 (Deck.cards d) i Hi) as [x Hx].
  destruct (lookup_lt_is_Some_2 (Deck.cards d) (Z.to_nat j) ltac:(lia)) as [y Hy].
  unfold JS.get. destruct (Z.ltb_spec j 0) as [? | _]; [lia |].
  rewrite Hx, Hy. cbn [mbind option_bind].
  eexists _, _. split; [reflexivity |]. cbn [Deck.cards]. split.
  - apply exchange_Permutation; assumption.
  - apply (unit_draws_next g Hg).
Qed.

Lemma shuffle_loop_Permutation i : forall d g,
  Math.unit_draws g -> (i < length (Deck.cards d) \/ i = O)%nat ->
  exists d' g',
    Deck.shuffle_loop i (d, g) = Some (d', g')
    /\ Deck.cards d' ≡ₚ Deck.cards d
    /\ Math.unit_draws g'.
Proof.
  induction i as [| i IH]; intros d g Hg Hi; cbn [Deck.shuffle_loop].
  - exists d, g. auto.
  - destruct (shuffle_step_Permutation (S i) d g Hg ltac:(lia))
      as (d1 & g1 & -> & Hp1 & Hg1).
    cbn [mbind option_bind].
    destruct (IH d1 g1 Hg1) as (d2 & g2 & -> & Hp2 & Hg2).
    { left. rewrite (Permutation_length Hp1). lia. }
    exists d2, g2. split; [reflexivity |]. split; [| exact Hg2].
    etransitivity; eassumption.
Qed.

(** C7: whatever [Math.random] draws, [shuffleDeck] returns and leaves the
    deck a rearrangement of the cards it had: no card is added, lost or
    repeated (so a deck of the 52 built cards still holds those 52). *)
Theorem shuffleDeck_rearranges d g :
  Math.unit_draws g ->
  exists d' g',
    Deck.shuffleDeck d g = Some (d', g')
    /\ Deck.cards d' ≡ₚ Deck.cards d
    /\ length (Deck.cards d') = length (Deck.cards d)
    /\ (forall c, c ∈ Deck.cards d' <-> c ∈ Deck.cards d).
Proof.
  intros Hg. unfold Deck.shuffleDeck.
  destruct (shuffle_loop_Permutation (length (Deck.cards d) - 1) d g Hg)
    as (d' & g' & Heq & Hp & _); [lia |].
  exists d', g'. split; [exact Heq |]. split; [exact Hp |].
  split; [apply Permutation_length, Hp |].
  intros c. rewrite Hp. reflexivity.
Qed.

Lemma unit_draws_half : Math.unit_draws half_draws.
Proof. intros n. split; unfold half_draws, Qle, Qlt; cbn; lia. Qed.

Lemma shuffleDeck_rearranges_witness :
  exists d' g',
    Deck.shuffleDeck (Deck.mk built_cards) half_draws = Some (d', g')
    /\ Deck.cards d' ≡ₚ Deck.cards (Deck.mk built_cards)
    /\ length (Deck.cards d') = length (Deck.cards (Deck.mk built_cards))
    /\ (forall c, c ∈ Deck.cards d' <-> c ∈ Deck.cards (Deck.mk built_cards)).
Proof.
  apply (shuffleDeck_rearranges (Deck.mk built_cards) half_draws).
  apply unit_draws_half.
Defined.

(** With draws of one half, the shuffle of three cards exchanges the last
    two (at index 2 it picks index 1, at index 1 it picks index 1). *)
Example shuffleDeck_three_cards :
  fst <$> Deck.shuffleDeck (Deck.mk (take 3 built_cards)) half_draws
  = Some (Deck.mk (take 1 built_cards ++ reverse (drop 1 (take 3 built_cards)))).
Proof. vm_compute. reflexivity. Qed.

(** A draw of 1 would send the index outside the deck. *)
Example shuffleDeck_bad_draw :
  Deck.shuffleDeck (Deck.mk (take 3 built_cards)) bad_draws = None.
Proof. vm_compute. reflexivity. Qed.

(** ** The shoe: filling *)

Lemma addShuffledDeck_appends_a_deck s g :
  Math.unit_draws g ->
  exists block g',
    Shoe.addShuffledDeck (s, g) = Some (Shoe.set_cards s (Shoe.cards s ++ block), g')
    /\ block ≡ₚ built_cards
    /\ Math.unit_draws g'.
Proof.
  intros Hg. unfold Shoe.addShuffledDeck. rewrite createDeck_new.
  cbn [mbind option_bind].
  destruct (shuffle_loop_Permutation
              (length (deck_table (VArr [1; 10])) - 1)
              (Deck.mk (deck_table (VArr [1; 10]))) g Hg)
    as (d' & g' & Heq & Hp & Hg'); [left; cbn; lia |].
  unfold Deck.shuffleDeck. cbn [Deck.cards] in *. rewrite Heq.
  cbn [mbind option_bind].
  exists (Deck.cards d'), g'. split; [reflexivity |].
  split; [rewrite built_cards_table; exact Hp | exact Hg'].
Qed.

(** [count] turns of the loop of [createShoe] append [count] blocks, each a
    rearrangement of the built deck. *)
Lemma createShoe_loop count : forall lo s g,
  Math.unit_draws g ->
  exists blocks g',
    JS.for_range lo count (fun _ => Shoe.addShuffledDeck) (s, g)
    = Some (Shoe.set_cards s (Shoe.cards s ++ concat blocks), g')
    /\ length blocks = count
    /\ Forall (fun block => block ≡ₚ built_cards) blocks
    /\ Math.unit_draws g'.
Proof.
  induction count as [| k IH]; intros lo s g Hg; cbn [JS.for_range].
  - exists [], g. cbn [concat]. rewrite app_nil_r, set_cards_same. auto.
  - destruct (addShuffledDeck_appends_a_deck s g Hg) as (b & g1 & -> & Hb & Hg1).
    cbn [mbind option_bind].
    destruct (IH (S lo) (Shoe.set_cards s (Shoe.cards s ++ b)) g1 Hg1)
      as (bs & g2 & -> & Hlen & Hbs & Hg2).
    exists (b :: bs), g2. cbn [Shoe.set_cards Shoe.cards Shoe.numDecks Shoe.cutoff concat].
    rewrite <- app_assoc. split; [reflexivity |].
    split; [cbn; lia |]. split; [constructor; assumption | exact Hg2].
Qed.

Lemma length_concat_blocks (blocks : list (list Card.t)) :
  Forall (fun block => block ≡ₚ built_cards) blocks ->
  length (concat blocks) = (52 * length blocks)%nat.
Proof.
  induction 1 as [| b bs Hb _ IH]; [reflexivity |].
  cbn [concat length]. rewrite length_app, IH, (Permutation_length Hb), length_built_cards.
  lia.
Qed.

(** C5: for every positive [numDecks] [k] and whatever [Math.random] draws,
    [createShoe] on a new shoe returns and leaves exactly [52 * k] cards:
    [k] blocks one after another, each a rearrangement of the 52 cards of a
    built deck. *)
Theorem createShoe_fills_the_shoe k cutoff g :
  0 < k -> Math.unit_draws g ->
  exists s' g' blocks,
    Shoe.createShoe (Shoe.new k cutoff) g = Some (s', g')
    /\ Z.of_nat (length (Shoe.cards s')) = 52 * k
    /\ Shoe.cards s' = concat blocks
    /\ Z.of_nat (length blocks) = k
    /\ Forall (fun block => block ≡ₚ built_cards /\ length block = 52%nat) blocks
    /\ Shoe.numDecks s' = k
    /\ Shoe.cutoff s' = Shoe.cutoff (Shoe.new k cutoff).
Proof.
  intros Hk Hg. unfold Shoe.createShoe.
  destruct (createShoe_loop (Z.to_nat (Shoe.numDecks (Shoe.new k cutoff))) O
              (Shoe.new k cutoff) g Hg)
    as (blocks & g' & Heq & Hlen & Hblocks & _).
  cbn [Shoe.new Shoe.numDecks Shoe.cards app] in *.
  eexists _, g', blocks. split; [exact Heq |].
  cbn [Shoe.set_cards Shoe.cards Shoe.numDecks Shoe.cutoff].
  split; [rewrite (length_concat_blocks blocks Hblocks); lia |].
  split; [reflexivity |]. split; [lia |]. split; [| split; reflexivity].
  eapply Forall_impl; [exact Hblocks |]. cbn beta. intros b Hb.
  split; [exact Hb |]. rewrite (Permutation_length Hb). apply length_built_cards.
Qed.

Lemma createShoe_fills_the_shoe_witness :
  exists s' g' blocks,
    Shoe.createShoe (Shoe.new 2 None) half_draws = Some (s', g')
    /\ Z.of_nat (length (Shoe.cards s')) = 52 * 2
    /\ Shoe.cards s' = concat blocks
    /\ Z.of_nat (length blocks) = 2
    /\ Forall (fun block => block ≡ₚ built_cards /\ length block = 52%nat) blocks
    /\ Shoe.numDecks s' = 2
    /\ Shoe.cutoff s' = Shoe.cutoff (Shoe.new 2 None).
Proof.
  apply (createShoe_fills_the_shoe 2 None half_draws).
  - lia.
  - apply unit_draws_half.
Defined.

(** ** More on dealing *)

(** A call of [deal] for no more cards than the shoe holds returns the first
    [num] cards and leaves the others. *)
Lemma deal_enough s num :
  num <= Z.of_nat (length (Shoe.cards s)) ->
  exists v,
    Shoe.deal (Some num) s
    = Shoe.Return v (Shoe.set_cards s (drop (Z.to_nat num) (Shoe.cards s)))
    /\ dealt_list v = Some <$> take (Z.to_nat num) (Shoe.cards s).
Proof.
  intros Hlen. unfold Shoe.deal. cbv [default from_option id].
  destruct (Z.ltb_spec (Z.of_nat (length (Shoe.cards s))) num) as [? | _]; [lia |].
  destruct (Z.eqb_spec num 1) as [-> | Hne].
  - unfold Shoe.shift. destruct (Shoe.cards s) as [| c rest] eqn:Hcs; [cbn in Hlen; lia |].
    exists (Shoe.One (Some c)). split; reflexivity.
  - rewrite deal_loop_take by lia. cbn [app].
    eexists. split; reflexivity.
Qed.

Lemma deal_short s num :
  Z.of_nat (length (Shoe.cards s)) < num ->
  Shoe.deal (Some num) s = Shoe.Throw "Not enough cards to deal!" s.
Proof.
  intros Hlt. unfold Shoe.deal. cbv [default from_option id].
  destruct (Z.ltb_spec (Z.of_nat (length (Shoe.cards s))) num); [reflexivity | lia].
Qed.

(** X1: whenever [deal(num)] returns, for any [num], what it hands out is
    the first [num] cards of the shoe, none of them [undefined]; the shoe
    keeps the cards after them, so the cards handed out followed by the
    cards kept are the cards the shoe had; [numDecks] and [cutoff] are as
    they were.  For [num] of 0 or less it hands out an empty array and
    leaves the shoe as it was. *)
Theorem deal_returns_the_front s num v s' :
  Shoe.deal (Some num) s = Shoe.Return v s' ->
  dealt_list v = Some <$> take (Z.to_nat num) (Shoe.cards s)
  /\ Shoe.cards s' = drop (Z.to_nat num) (Shoe.cards s)
  /\ (Some <$> Shoe.cards s) = dealt_list v ++ (Some <$> Shoe.cards s')
  /\ Shoe.numDecks s' = Shoe.numDecks s
  /\ Shoe.cutoff s' = Shoe.cutoff s
  /\ (num <= 0 -> v = Shoe.Many [] /\ s' = s).
Proof.
  intros Hret.
  destruct (Z.lt_ge_cases (Z.of_nat (length (Shoe.cards s))) num) as [Hlt | Hge].
  { rewrite (deal_short s num Hlt) in Hret. discriminate Hret. }
  destruct (deal_enough s num ltac:(lia)) as (v0 & Heq & Hv0).
  rewrite Heq in Hret. injection Hret as <- <-.
  split; [exact Hv0 |]. split; [reflexivity |].
  split; [rewrite Hv0; cbn [Shoe.set_cards Shoe.cards];
          rewrite <- fmap_app, take_drop; reflexivity |].
  split; [reflexivity |]. split; [reflexivity |].
  intros Hnum. replace (Z.to_nat num) with O in * by lia.
  rewrite drop_0, set_cards_same in Heq |- *. split; [| reflexivity].
  unfold Shoe.deal in Heq. cbv [default from_option id] in Heq.
  destruct (Z.ltb_spec (Z.of_nat (length (Shoe.cards s))) num); [discriminate Heq |].
  destruct (Z.eqb_spec num 1); [lia |].
  replace (Z.to_nat num) with O in Heq by lia. cbn in Heq.
  injection Heq as <-. reflexivity.
Qed.

Lemma deal_returns_the_front_witness :
  dealt_list (Shoe.Many (Some <$> take 2 (Shoe.cards (shoe_of 3 1))))
  = Some <$> take (Z.to_nat 2) (Shoe.cards (shoe_of 3 1)).
Proof.
  refine (proj1 (deal_returns_the_front (shoe_of 3 1) 2 _
                   (Shoe.set_cards (shoe_of 3 1) (drop 2 (Shoe.cards (shoe_of 3 1)))) _)).
  vm_compute. reflexivity.
Defined.

(** X2: two calls of [deal] in a row hand out, one after the other, the
    cards one call for the sum hands out, and leave the same shoe: a card
    that was dealt is not dealt again. *)
Theorem deal_twice s m n :
  0 <= m -> 0 <= n -> m + n <= Z.of_nat (length (Shoe.cards s)) ->
  exists v1 s1 v2 s2 v,
    Shoe.deal (Some m) s = Shoe.Return v1 s1
    /\ Shoe.deal (Some n) s1 = Shoe.Return v2 s2
    /\ Shoe.deal (Some (m + n)) s = Shoe.Return v s2
    /\ dealt_list v = dealt_list v1 ++ dealt_list v2.
Proof.
  intros Hm Hn Hlen.
  destruct (deal_enough s m ltac:(lia)) as (v1 & H1 & Hv1).
  set (s1 := Shoe.set_cards s (drop (Z.to_nat m) (Shoe.cards s))) in *.
  assert (Hlen1 : n <= Z.of_nat (length (Shoe.cards s1))).
  { unfold s1. cbn [Shoe.set_cards Shoe.cards]. rewrite length_drop. lia. }
  destruct (deal_enough s1 n Hlen1) as (v2 & H2 & Hv2).
  destruct (deal_enough s (m + n) Hlen) as (v & H & Hv).
  exists v1, s1, v2, (Shoe.set_cards s1 (drop (Z.to_nat n) (Shoe.cards s1))), v.
  split; [exact H1 |]. split; [exact H2 |].
  assert (Hmn : Z.to_nat (m + n) = (Z.to_nat m + Z.to_nat n)%nat) by lia.
  split.
  - rewrite H. unfold s1. cbn [Shoe.set_cards Shoe.cards].
    rewrite drop_drop, Hmn. reflexivity.
  - rewrite Hv, Hv1, Hv2, Hmn. unfold s1. cbn [Shoe.set_cards Shoe.cards].
    rewrite <- fmap_app, take_take_drop. reflexivity.
Qed.

Lemma deal_twice_witness :
  exists v1 s1 v2 s2 v,
    Shoe.deal (Some 1) (shoe_of 5 1) = Shoe.Return v1 s1
    /\ Shoe.deal (Some 3) s1 = Shoe.Return v2 s2
    /\ Shoe.deal (Some (1 + 3)) (shoe_of 5 1) = Shoe.Return v s2
    /\ dealt_list v = dealt_list v1 ++ dealt_list v2.
Proof.
  apply (deal_twice (shoe_of 5 1) 1 3); [lia | lia |].
  vm_compute. discriminate.
Defined.

(** One call of [deal], returning or throwing, leaves a shoe whose cards are
    the cards it had less some from the front. *)
Lemma shoe_after_deal s num :
  exists n,
    Shoe.cards (shoe_after (Shoe.deal (Some num) s)) = drop n (Shoe.cards s)
    /\ Shoe.numDecks (shoe_after (Shoe.deal (Some num) s)) = Shoe.numDecks s
    /\ Shoe.cutoff (shoe_after (Shoe.deal (Some num) s)) = Shoe.cutoff s.
Proof.
  destruct (Z.lt_ge_cases (Z.of_nat (length (Shoe.cards s))) num) as [Hlt | Hge].
  - rewrite (deal_short s num Hlt). exists O. rewrite drop_0. auto.
  - destruct (deal_enough s num ltac:(lia)) as (v & -> & _).
    exists (Z.to_nat num). auto.
Qed.

Lemma deals_tail nums : forall s,
  exists n,
    Shoe.cards (deals nums s) = drop n (Shoe.cards s)
    /\ Shoe.numDecks (deals nums s) = Shoe.numDecks s
    /\ Shoe.cutoff (deals nums s) = Shoe.cutoff s.
Proof.
  induction nums as [| num nums IH]; intros s; cbn [deals foldl].
  - exists O. rewrite drop_0. auto.
  - destruct (shoe_after_deal s num) as (n1 & Hc1 & Hn1 & Hk1).
    destruct (IH (shoe_after (Shoe.deal (Some num) s))) as (n2 & Hc2 & Hn2 & Hk2).
    unfold deals in *. exists (n1 + n2)%nat.
    rewrite Hc2, Hc1, drop_drop. split; [reflexivity |]. split; congruence.
Qed.

(** X3: through any run of calls of [deal], throwing calls included, the
    cards of the shoe are always what is left of the cards it started with
    after taking some from the front: the shoe never grows, nothing is put
    back or reordered, and [numDecks] and [cutoff] stay as they were. *)
Theorem deals_leave_a_tail nums s :
  exists n,
    Shoe.cards (deals nums s) = drop n (Shoe.cards s)
    /\ (length (Shoe.cards (deals nums s)) <= length (Shoe.cards s))%nat
    /\ (forall c, c ∈ Shoe.cards (deals nums s) -> c ∈ Shoe.cards s)
    /\ Shoe.numDecks (deals nums s) = Shoe.numDecks s
    /\ Shoe.cutoff (deals nums s) = Shoe.cutoff s.
Proof.
  destruct (deals_tail nums s) as (n & Hc & Hn & Hk).
  exists n. split; [exact Hc |]. rewrite Hc.
  split; [rewrite length_drop; lia |].
  split; [intros c; apply subseteq_drop | auto].
Qed.

(** ** More on shuffling *)

(** X4: a deck of no card or of one card is left as it is by [shuffleDeck],
    whatever the stream of draws, and no draw is made. *)
Theorem shuffleDeck_of_at_most_one_card d g :
  (length (Deck.cards d) <= 1)%nat ->
  Deck.shuffleDeck d g = Some (d, g).
Proof.
  intros Hlen. unfold Deck.shuffleDeck.
  replace (length (Deck.cards d) - 1)%nat with O by lia. reflexivity.
Qed.

Lemma shuffleDeck_of_at_most_one_card_witness :
  Deck.shuffleDeck (Deck.mk [ace_of_clubs]) bad_draws
  = Some (Deck.mk [ace_of_clubs], bad_draws).
Proof.
  apply (shuffleDeck_of_at_most_one_card (Deck.mk [ace_of_clubs]) bad_draws).
  cbn. lia.
Defined.

(** A turn of the shuffle that returns has made one draw. *)
Lemma shuffle_step_draws i d g d' g' :
  Deck.shuffle_step i (d, g) = Some (d', g') ->
  g' = snd (Math.random g) /\ length (Deck.cards d') = length (Deck.cards d).
Proof.
  unfold Deck.shuffle_step, Math.random. cbn [snd].
  destruct (Deck.cards d !! i) as [temp |]; [| discriminate].
  cbn [mbind option_bind].
  destruct (JS.get (Deck.cards d) _) as [cj |]; [| discriminate].
  cbn [mbind option_bind]. intros H. injection H as <- <-.
  cbn [Deck.cards]. rewrite !length_insert. auto.
Qed.

Lemma shuffle_loop_draws i : forall d g d' g',
  Deck.shuffle_loop i (d, g) = Some (d', g') ->
  (forall n, g' n = after_draws i g n)
  /\ length (Deck.cards d') = length (Deck.cards d).
Proof.
  induction i as [| i IH]; intros d g d' g'; cbn [Deck.shuffle_loop].
  - intros H. injection H as <- <-. split; [| reflexivity].
    intros n. unfold after_draws. f_equal. lia.
  - destruct (Deck.shuffle_step (S i) (d, g)) as [[d1 g1] |] eqn:Hstep; [| discriminate].
    cbn [mbind option_bind]. intros Hloop.
    apply shuffle_step_draws in Hstep as [-> Hl1].
    apply IH in Hloop as [Hg Hl]. split; [| congruence].
    intros n. rewrite Hg. unfold after_draws, Math.random. cbn [snd].
    f_equal. lia.
Qed.

(** X5: for draws as [Math.random] makes them, [shuffleDeck] on a deck of
    [n] cards makes exactly [n - 1] draws (none on an empty deck) and keeps
    the number of cards. *)
Theorem shuffleDeck_draws d g :
  Math.unit_draws g ->
  exists d' g',
    Deck.shuffleDeck d g = Some (d', g')
    /\ (forall n, g' n = after_draws (length (Deck.cards d) - 1) g n)
    /\ length (Deck.cards d') = length (Deck.cards d).
Proof.
  intros Hg. unfold Deck.shuffleDeck.
  destruct (shuffle_loop_Permutation (length (Deck.cards d) - 1) d g Hg)
    as (d' & g' & Heq & _ & _); [lia |].
  exists d', g'. split; [exact Heq |].
  apply (shuffle_loop_draws _ _ _ _ _ Heq).
Qed.

Lemma shuffleDeck_draws_witness :
  exists d' g',
    Deck.shuffleDeck (Deck.mk built_cards) half_draws = Some (d', g')
    /\ (forall n, g' n = after_draws (length (Deck.cards (Deck.mk built_cards)) - 1)
                           half_draws n)
    /\ length (Deck.cards d') = length (Deck.cards (Deck.mk built_cards)).
Proof.
  apply (shuffleDeck_draws (Deck.mk built_cards) half_draws).
  apply unit_draws_half.
Defined.

(** With a draw of 0 the turn at index [S i] exchanges the card there with
    the first card. *)
Lemma shuffle_step_zero i a x (mid rest : list Card.t) g :
  (g O == 0)%Q -> length mid = i ->
  Deck.shuffle_step (S i) (Deck.mk (a :: mid ++ x :: rest), g)
  = Some (Deck.mk (x :: mid ++ a :: rest), snd (Math.random g)).
Proof.
  intros Hg Hlen. unfold Deck.shuffle_step, Math.random. cbn [snd Deck.cards].
  assert (Hj : Qfloor (g O * inject_Z (Z.of_nat (S i) + 1)) = 0).
  { rewrite (Qfloor_comp _ 0); [reflexivity |]. rewrite Hg. apply Qmult_0_l. }
  rewrite Hj.
  change ((a :: mid ++ x :: rest) !! S i) with ((mid ++ x :: rest) !! i).
  rewrite (list_lookup_middle mid rest x i) by (symmetry; exact Hlen).
  change (JS.get (a :: mid ++ x :: rest) 0) with (Some a).
  cbn [mbind option_bind].
  change (<[S i := a]> (a :: mid ++ x :: rest))
    with (a :: <[i := a]> (mid ++ x :: rest)).
  rewrite insert_app_r_alt by lia.
  replace (i - length mid)%nat with O by lia. reflexivity.
Qed.

Lemma shuffle_loop_zero i : forall a (mid rest : list Card.t) g,
  (forall n, g n == 0)%Q -> length mid = i ->
  exists g',
    Deck.shuffle_loop i (Deck.mk (a :: mid ++ rest), g)
    = Some (Deck.mk (mid ++ a :: rest), g').
Proof.
  induction i as [| i IH]; intros a mid rest g Hg Hlen.
  - destruct mid; [| discriminate]. exists g. reflexivity.
  - destruct (decide (mid = [])) as [-> | Hne]; [discriminate |].
    destruct (exists_last Hne) as (mid' & x & ->).
    rewrite length_app in Hlen. cbn in Hlen.
    cbn [Deck.shuffle_loop]. rewrite <- app_assoc. cbn [app].
    rewrite (shuffle_step_zero i a x mid' rest g (Hg O)) by lia.
    cbn [mbind option_bind].
    destruct (IH x mid' (a :: rest) (snd (Math.random g))) as (g' & Heq); [| lia |].
    { intros n. apply (Hg (S n)). }
    exists g'. rewrite <- app_assoc. exact Heq.
Qed.

(** X6: when every draw is 0, [shuffleDeck] moves the first card to the end
    and every other card one place forward. *)
Theorem shuffleDeck_zero_draws d g :
  (forall n, g n == 0)%Q ->
  exists g',
    Deck.shuffleDeck d g
    = Some (Deck.mk (drop 1 (Deck.cards d) ++ take 1 (Deck.cards d)), g').
Proof.
  intros Hg. destruct d as [[| a mid]].
  - exists g. reflexivity.
  - unfold Deck.shuffleDeck. cbn [Deck.cards].
    change (drop 1 (a :: mid) ++ take 1 (a :: mid)) with (mid ++ [a]).
    replace (length (a :: mid) - 1)%nat with (length mid) by (cbn; lia).
    destruct (shuffle_loop_zero (length mid) a mid [] g Hg eq_refl) as (g' & Heq).
    rewrite app_nil_r in Heq. exists g'. exact Heq.
Qed.

Lemma shuffleDeck_zero_draws_witness :
  exists g',
    Deck.shuffleDeck (Deck.mk built_cards) zero_draws
    = Some (Deck.mk (drop 1 (Deck.cards (Deck.mk built_cards))
                     ++ take 1 (Deck.cards (Deck.mk built_cards))), g').
Proof.
  apply (shuffleDeck_zero_draws (Deck.mk built_cards) zero_draws).
  intros n. reflexivity.
Defined.

(** ** More on filling the shoe *)

(** A call of [addShuffledDeck] that returns has made 51 draws. *)
Lemma addShuffledDeck_draws s g s' g' :
  Shoe.addShuffledDeck (s, g) = Some (s', g') ->
  forall n, g' n = after_draws 51 g n.
Proof.
  unfold Shoe.addShuffledDeck. rewrite createDeck_new. cbn [mbind option_bind].
  unfold Deck.shuffleDeck.
  destruct (Deck.shuffle_loop _ _) as [[d1 g1] |] eqn:Hloop; [| discriminate].
  cbn [mbind option_bind]. intros H. injection H as <- <-.
  apply (shuffle_loop_draws _ _ _ _ _ Hloop).
Qed.

Lemma createShoe_loop_draws count : forall lo s g s' g',
  JS.for_range lo count (fun _ => Shoe.addShuffledDeck) (s, g) = Some (s', g') ->
  forall n, g' n = after_draws (51 * count) g n.
Proof.
  induction count as [| k IH]; intros lo s g s' g'; cbn [JS.for_range].
  - intros H. injection H as <- <-. intros n. unfold after_draws. f_equal. lia.
  - destruct (Shoe.addShuffledDeck (s, g)) as [[s1 g1] |] eqn:Hadd; [| discriminate].
    cbn [mbind option_bind]. intros Hloop n.
    rewrite (IH _ _ _ _ _ Hloop n). unfold after_draws.
    rewrite (addShuffledDeck_draws _ _ _ _ Hadd). unfold after_draws.
    f_equal. lia.
Qed.

Lemma concat_blocks_Permutation (blocks : list (list Card.t)) :
  Forall (fun block => block ≡ₚ built_cards) blocks ->
  concat blocks ≡ₚ concat (replicate (length blocks) built_cards).
Proof.
  induction 1 as [| b bs Hb _ IH]; [reflexivity |].
  cbn [concat length replicate]. rewrite Hb, IH. reflexivity.
Qed.

(** X7: for draws as [Math.random] makes them, [createShoe] on any shoe
    returns and puts [numDecks] shuffled decks after the cards the shoe
    already holds, which stay in front in their order: a second call on the
    same shoe adds the decks a second time.  It makes 51 draws for each
    deck, leaves [numDecks] and [cutoff] as they are, and changes nothing
    when [numDecks] is 0 or less. *)
Theorem createShoe_appends s g :
  Math.unit_draws g ->
  exists s' g' blocks,
    Shoe.createShoe s g = Some (s', g')
    /\ Shoe.cards s' = Shoe.cards s ++ concat blocks
    /\ length blocks = Z.to_nat (Shoe.numDecks s)
    /\ Forall (fun block => block ≡ₚ built_cards) blocks
    /\ length (Shoe.cards s')
       = (length (Shoe.cards s) + 52 * Z.to_nat (Shoe.numDecks s))%nat
    /\ (forall n, g' n = after_draws (51 * Z.to_nat (Shoe.numDecks s)) g n)
    /\ Shoe.numDecks s' = Shoe.numDecks s
    /\ Shoe.cutoff s' = Shoe.cutoff s
    /\ (Shoe.numDecks s <= 0 -> s' = s).
Proof.
  intros Hg. unfold Shoe.createShoe.
  destruct (createShoe_loop (Z.to_nat (Shoe.numDecks s)) O s g Hg)
    as (blocks & g' & Heq & Hlen & Hblocks & _).
  eexists _, g', blocks. split; [exact Heq |].
  cbn [Shoe.set_cards Shoe.cards Shoe.numDecks Shoe.cutoff].
  split; [reflexivity |]. split; [exact Hlen |]. split; [exact Hblocks |].
  split; [rewrite length_app, (length_concat_blocks blocks Hblocks), Hlen; reflexivity |].
  split; [apply (createShoe_loop_draws _ _ _ _ _ _ Heq) |].
  split; [reflexivity |]. split; [reflexivity |].
  intros Hk. replace (Z.to_nat (Shoe.numDecks s)) with O in Hlen by lia.
  destruct blocks; [| discriminate Hlen].
  cbn [concat]. rewrite app_nil_r. apply set_cards_same.
Qed.

Lemma createShoe_appends_witness :
  exists s' g' blocks,
    Shoe.createShoe (shoe_of 3 1) half_draws = Some (s', g')
    /\ Shoe.cards s' = Shoe.cards (shoe_of 3 1) ++ concat blocks
    /\ length blocks = Z.to_nat (Shoe.numDecks (shoe_of 3 1))
    /\ Forall (fun block => block ≡ₚ built_cards) blocks
    /\ length (Shoe.cards s')
       = (length (Shoe.cards (shoe_of 3 1))
          + 52 * Z.to_nat (Shoe.numDecks (shoe_of 3 1)))%nat
    /\ (forall n, g' n
                  = after_draws (51 * Z.to_nat (Shoe.numDecks (shoe_of 3 1)))
                      half_draws n)
    /\ Shoe.numDecks s' = Shoe.numDecks (shoe_of 3 1)
    /\ Shoe.cutoff s' = Shoe.cutoff (shoe_of 3 1)
    /\ (Shoe.numDecks (shoe_of 3 1) <= 0 -> s' = shoe_of 3 1).
Proof.
  apply (createShoe_appends (shoe_of 3 1) half_draws).
  apply unit_draws_half.
Defined.

(** A new shoe, filled. *)
Lemma createShoe_new k cutoff g :
  Math.unit_draws g ->
  exists s' g',
    Shoe.createShoe (Shoe.new k cutoff) g = Some (s', g')
    /\ Shoe.cards s' ≡ₚ concat (replicate (Z.to_nat k) built_cards)
    /\ Shoe.numDecks s' = k.
Proof.
  intros Hg. unfold Shoe.createShoe.
  destruct (createShoe_loop (Z.to_nat (Shoe.numDecks (Shoe.new k cutoff))) O
              (Shoe.new k cutoff) g Hg)
    as (blocks & g' & Heq & Hlen & Hblocks & _).
  eexists _, g'. split; [exact Heq |].
  cbn [Shoe.new Shoe.set_cards Shoe.cards Shoe.numDecks app] in *.
  split; [| reflexivity].
  rewrite (concat_blocks_Permutation blocks Hblocks), Hlen. reflexivity.
Qed.

Lemma elem_of_concat_replicate {A} (x : A) n (l : list A) :
  x ∈ concat (replicate n l) -> x ∈ l.
Proof.
  induction n as [| n IH]; cbn [replicate concat].
  - intros H. inversion H.
  - rewrite elem_of_app. intros [H | H]; [exact H | apply IH, H].
Qed.

(** X8: a new shoe for [k] decks, filled by [createShoe], holds the cards of
    [k] built decks put together, in some order: every card of the built
    deck as many times as there are decks, and no other card. *)
Theorem createShoe_holds_k_decks k cutoff g :
  Math.unit_draws g ->
  exists s' g',
    Shoe.createShoe (Shoe.new k cutoff) g = Some (s', g')
    /\ Shoe.cards s' ≡ₚ concat (replicate (Z.to_nat k) built_cards)
    /\ (forall c, c ∈ Shoe.cards s' -> built c)
    /\ (forall c, built c ->
          length (filter (fun c' => c' = c) (Shoe.cards s')) = Z.to_nat k).
Proof.
  intros Hg. destruct (createShoe_new k cutoff g Hg) as (s' & g' & Heq & Hp & _).
  exists s', g'. split; [exact Heq |]. split; [exact Hp |]. split.
  - intros c Hc. rewrite Hp in Hc. apply (elem_of_concat_replicate _ _ _ Hc).
  - intros c Hc. rewrite Hp. clear Hp Heq.
    assert (Hone : length (filter (fun c' => c' = c) built_cards) = 1%nat).
    { assert (Hall : forallb (fun c0 => bool_decide
                (length (filter (fun c' => c' = c0) built_cards) = 1%nat))
                built_cards = true) by (vm_compute; reflexivity).
      rewrite forallb_forall in Hall.
      apply (bool_decide_eq_true_1 _), Hall, list_elem_of_In, Hc. }
    induction (Z.to_nat k) as [| n IH]; [reflexivity |].
    cbn [replicate concat]. rewrite filter_app, length_app, Hone, IH. reflexivity.
Qed.

Lemma createShoe_holds_k_decks_witness :
  exists s' g',
    Shoe.createShoe (Shoe.new 2 None) half_draws = Some (s', g')
    /\ Shoe.cards s' ≡ₚ concat (replicate (Z.to_nat 2) built_cards)
    /\ (forall c, c ∈ Shoe.cards s' -> built c)
    /\ (forall c, built c ->
          length (filter (fun c' => c' = c) (Shoe.cards s')) = Z.to_nat 2).
Proof.
  apply (createShoe_holds_k_decks 2 None half_draws).
  apply unit_draws_half.
Defined.

(** X9: once a new shoe is filled, whatever calls of [deal] follow, the
    shoe never holds more than [52 * numDecks] cards, and it holds only
    cards of the built deck. *)
Theorem shoe_never_exceeds_its_decks k cutoff g nums :
  Math.unit_draws g ->
  exists s' g',
    Shoe.createShoe (Shoe.new k cutoff) g = Some (s', g')
    /\ Shoe.numDecks (deals nums s') = k
    /\ Z.of_nat (length (Shoe.cards (deals nums s')))
       <= 52 * Z.max 0 (Shoe.numDecks (deals nums s'))
    /\ (forall c, c ∈ Shoe.cards (deals nums s') -> built c).
Proof.
  intros Hg. destruct (createShoe_new k cutoff g Hg) as (s' & g' & Heq & Hp & Hk).
  exists s', g'. split; [exact Heq |].
  destruct (deals_tail nums s') as (n & Hc & Hn & _).
  split; [congruence |]. split.
  - rewrite Hn, Hk, Hc, length_drop, (Permutation_length Hp).
    rewrite (length_concat_blocks (replicate (Z.to_nat k) built_cards)),
      length_replicate by (apply Forall_replicate; reflexivity).
    lia.
  - intros c Hc'. rewrite Hc in Hc'. apply subseteq_drop in Hc'.
    rewrite Hp in Hc'. apply (elem_of_concat_replicate _ _ _ Hc').
Qed.

Lemma shoe_never_exceeds_its_decks_witness :
  exists s' g',
    Shoe.createShoe (Shoe.new 2 None) half_draws = Some (s', g')
    /\ Shoe.numDecks (deals [5; 1; 200; 0] s') = 2
    /\ Z.of_nat (length (Shoe.cards (deals [5; 1; 200; 0] s')))
       <= 52 * Z.max 0 (Shoe.numDecks (deals [5; 1; 200; 0] s'))
    /\ (forall c, c ∈ Shoe.cards (deals [5; 1; 200; 0] s') -> built c).
Proof.
  apply (shoe_never_exceeds_its_decks 2 None half_draws [5; 1; 200; 0]).
  apply unit_draws_half.
Defined.

(** ** More on hand evaluation *)

Lemma adjust_blackjack_value cs :
  Forall built cs ->
  blackjack_value cs (adjust (raw_score cs) (ace_count cs)).
Proof.
  intros Hcs. pose proof (totals_built cs Hcs) as Htot.
  destruct (adjust_steps (ace_count cs) (raw_score cs))
    as (k & Hk & Heq & Hstop & Hbefore).
  rewrite Heq in *. split; [apply Htot; eauto |].
  destruct (Z.le_gt_cases (raw_score cs - 10 * Z.of_nat k) 21) as [Hle | Hgt].
  - left. split; [exact Hle |]. intros t Ht Ht21.
    apply Htot in Ht as (k' & Hk' & ->).
    destruct (decide (k' < k)%nat) as [Hlt | Hge]; [| lia].
    specialize (Hbefore k' Hlt). lia.
  - right. intros t Ht. apply Htot in Ht as (k' & Hk' & ->).
    assert (k = ace_count cs) by (destruct Hstop; [lia | assumption]).
    split; lia.
Qed.

(** X10: a hand made of cards of a shoe that [createShoe] has filled, in any
    number and order, is given its blackjack value by [evalHand]. *)
Theorem evalHand_on_cards_of_the_shoe k cutoff g :
  Math.unit_draws g ->
  exists s' g',
    Shoe.createShoe (Shoe.new k cutoff) g = Some (s', g')
    /\ forall cs out,
         (forall c, c ∈ cs -> c ∈ Shoe.cards s') ->
         blackjack_value cs (fst (evalHand (mkHeap cs out))).
Proof.
  intros Hg. destruct (createShoe_new k cutoff g Hg) as (s' & g' & Heq & Hp & _).
  exists s', g'. split; [exact Heq |]. intros cs out Hcs.
  rewrite evalHand_unfold. cbn [fst]. apply adjust_blackjack_value.
  apply Forall_forall. intros c Hc. apply Hcs in Hc. rewrite Hp in Hc.
  apply (elem_of_concat_replicate _ _ _ Hc).
Qed.

Lemma evalHand_on_cards_of_the_shoe_witness :
  exists s' g',
    Shoe.createShoe (Shoe.new 1 None) half_draws = Some (s', g')
    /\ forall cs out,
         (forall c, c ∈ cs -> c ∈ Shoe.cards s') ->
         blackjack_value cs (fst (evalHand (mkHeap cs out))).
Proof.
  apply (evalHand_on_cards_of_the_shoe 1 None half_draws).
  apply unit_draws_half.
Defined.

Lemma ace_count_Permutation cs cs' :
  cs ≡ₚ cs' -> ace_count cs = ace_count cs'.
Proof.
  induction 1 as [| c cs cs' _ IH | c c' cs | cs1 cs2 cs3 _ IH1 _ IH2].
  - reflexivity.
  - rewrite !ace_count_cons, IH. reflexivity.
  - rewrite !ace_count_cons. lia.
  - congruence.
Qed.

Lemma raw_score_Permutation cs cs' :
  cs ≡ₚ cs' -> raw_score cs = raw_score cs'.
Proof.
  induction 1 as [| c cs cs' _ IH | c c' cs | cs1 cs2 cs3 _ IH1 _ IH2].
  - reflexivity.
  - rewrite !raw_score_cons, IH. reflexivity.
  - rewrite !raw_score_cons. lia.
  - congruence.
Qed.

Lemma total_magnitude_Permutation cs cs' :
  cs ≡ₚ cs' -> total_magnitude cs = total_magnitude cs'.
Proof.
  unfold total_magnitude.
  induction 1 as [| c cs cs' _ IH | c c' cs | cs1 cs2 cs3 _ IH1 _ IH2];
    cbn [foldr]; lia.
Qed.

(** X11: the order of the cards in a hand does not matter: for a hand
    within the exact range (the numbers of its cards, with 10 for each ace,
    add up to at most 2^53 in absolute value, so that no sum is rounded),
    every hand of the same cards in another order is within the range too
    and gets the same results from [evalHand], [scoreHand], [isBust] and
    [belowHard17]. *)
Theorem evaluators_ignore_the_order cs cs' out out' :
  safe_hand cs ->
  cs ≡ₚ cs' ->
  safe_hand cs'
  /\ fst (evalHand (mkHeap cs out)) = fst (evalHand (mkHeap cs' out'))
  /\ fst (scoreHand (mkHeap cs out)) = fst (scoreHand (mkHeap cs' out'))
  /\ fst (isBust (mkHeap cs out)) = fst (isBust (mkHeap cs' out'))
  /\ fst (belowHard17 (mkHeap cs out)) = fst (belowHard17 (mkHeap cs' out')).
Proof.
  intros Hsafe Hp. split.
  { unfold safe_hand in *.
    rewrite <- (total_magnitude_Permutation cs cs' Hp),
            <- (ace_count_Permutation cs cs' Hp). exact Hsafe. }
  unfold scoreHand, isBust, belowHard17. rewrite !evalHand_unfold.
  cbn [fst]. rewrite (ace_count_Permutation cs cs' Hp), (raw_score_Permutation cs cs' Hp).
  repeat split.
Qed.

Lemma safe_ace_king : safe_hand [ace_of_clubs; king_of_hearts].
Proof. vm_compute. discriminate. Qed.

Lemma evaluators_ignore_the_order_witness :
  fst (evalHand (mkHeap [ace_of_clubs; king_of_hearts] []))
  = fst (evalHand (mkHeap [king_of_hearts; ace_of_clubs] [])).
Proof.
  refine (proj1 (proj2 (evaluators_ignore_the_order
                   [ace_of_clubs; king_of_hearts] [king_of_hearts; ace_of_clubs]
                   [] [] safe_ace_king _))).
  apply perm_swap.
Defined.

(** X12: for a hand of built cards, [isBust] is true exactly when every way
    of counting the aces gives more than 21, and [belowHard17] is true
    exactly when some way gives less than 17 and none gives 17 to 21 (so
    it is false for an ace and a six, which can count 17). *)
Theorem isBust_and_belowHard17_on_totals cs out :
  Forall built cs ->
  (fst (isBust (mkHeap cs out)) = true <-> forall t, t ∈ totals cs -> 21 < t)
  /\ (fst (belowHard17 (mkHeap cs out)) = true
      <-> (exists t, t ∈ totals cs /\ t < 17)
          /\ forall t, t ∈ totals cs -> t < 17 \/ 21 < t).
Proof.
  intros Hcs. unfold isBust, belowHard17. rewrite evalHand_unfold. cbn [fst].
  destruct (adjust_blackjack_value cs Hcs) as [Hv Hbest].
  set (v := adjust (raw_score cs) (ace_count cs)) in *.
  rewrite Z.ltb_lt, Z.ltb_lt. split; split.
  - intros Hgt t Ht. destruct Hbest as [[Hle _] | Hmin]; [lia |].
    apply (Hmin t Ht).
  - intros Hall. apply (Hall v Hv).
  - intros Hlt. destruct Hbest as [[Hle Hmax] | Hmin].
    + split; [exists v; auto |]. intros t Ht.
      destruct (Z.le_gt_cases t 21) as [Ht21 | ?]; [| lia].
      specialize (Hmax t Ht Ht21). lia.
    + destruct (Hmin v Hv). lia.
  - intros [(t0 & Ht0 & Hlt0) Hall]. destruct Hbest as [[Hle Hmax] | Hmin].
    + destruct (Hall v Hv); lia.
    + destruct (Hmin t0 Ht0). lia.
Qed.

Lemma isBust_and_belowHard17_on_totals_witness :
  (fst (isBust (mkHeap [ace_of_clubs; king_of_hearts] [])) = true
   <-> forall t, t ∈ totals [ace_of_clubs; king_of_hearts] -> 21 < t)
  /\ (fst (belowHard17 (mkHeap [ace_of_clubs; king_of_hearts] [])) = true
      <-> (exists t, t ∈ totals [ace_of_clubs; king_of_hearts] /\ t < 17)
          /\ forall t, t ∈ totals [ace_of_clubs; king_of_hearts] -> t < 17 \/ 21 < t).
Proof.
  apply (isBust_and_belowHard17_on_totals [ace_of_clubs; king_of_hearts] []).
  constructor; [apply built_ace_of_clubs |].
  constructor; [apply built_king_of_hearts | constructor].
Defined.

Lemma abs_sum_array a : forall acc,
  Z.abs (foldl (fun acc curr => acc + curr) acc a)
  <= Z.abs acc + foldr (fun x acc => Z.abs x + acc) 0 a.
Proof.
  induction a as [| x a IH]; intros acc; cbn [foldl foldr]; [lia |].
  specialize (IH (acc + x)). lia.
Qed.

Lemma abs_add_value c : Z.abs (add_value 0 c) <= magnitude c.
Proof.
  unfold add_value, magnitude. destruct (Card.value c) as [n | a]; [lia |].
  pose proof (abs_sum_array a 0). lia.
Qed.

Lemma abs_raw_score cs : Z.abs (raw_score cs) <= total_magnitude cs.
Proof.
  induction cs as [| c cs IH]; [cbn; lia |].
  rewrite raw_score_cons. unfold total_magnitude in *. cbn [foldr].
  pose proof (abs_add_value c). lia.
Qed.

(** X13: for a hand within the exact range (the numbers of its cards, with
    10 for each ace, add up to at most 2^53 in absolute value, so that no
    sum is rounded), whatever its cards: [evalHand] returns the raw score
    less 10 for some of the cards of rank ace; it returns the raw score
    itself when that is 21 or less, or when no card has the rank ace (three
    kings score 30); when the raw score is above 21 it never returns 11 or
    less, as the loop stops as soon as the score is 21 or less; and the raw
    score and the result are within 2^53 in absolute value. *)
Theorem evalHand_bounds cs out :
  safe_hand cs ->
  (exists k : nat,
     (k <= ace_count cs)%nat
     /\ fst (evalHand (mkHeap cs out)) = raw_score cs - 10 * Z.of_nat k)
  /\ (raw_score cs <= 21 -> fst (evalHand (mkHeap cs out)) = raw_score cs)
  /\ (ace_count cs = O -> fst (evalHand (mkHeap cs out)) = raw_score cs)
  /\ (21 < raw_score cs -> 11 < fst (evalHand (mkHeap cs out)))
  /\ Z.abs (raw_score cs) <= 2 ^ 53
  /\ Z.abs (fst (evalHand (mkHeap cs out))) <= 2 ^ 53.
Proof.
  intros Hsafe. unfold safe_hand in Hsafe.
  pose proof (abs_raw_score cs) as Habs.
  rewrite evalHand_unfold. cbn [fst].
  destruct (adjust_steps (ace_count cs) (raw_score cs))
    as (k & Hk & Heq & _ & Hbefore).
  rewrite Heq. split; [exists k; auto |].
  assert (Hpos : (0 < k)%nat -> 21 < raw_score cs - 10 * Z.of_nat (k - 1)).
  { intros Hpos. apply Hbefore. lia. }
  split; [| split; [| split; [| split]]].
  - intros Hle. destruct k as [| k]; [lia |].
    specialize (Hbefore O ltac:(lia)). lia.
  - intros H0. replace k with O by lia. lia.
  - intros Hgt. destruct k as [| k]; [lia |].
    specialize (Hpos ltac:(lia)). lia.
  - lia.
  - lia.
Qed.

Lemma evalHand_bounds_witness :
  (exists k : nat,
     (k <= ace_count [ace_of_clubs; king_of_hearts; king_of_hearts])%nat
     /\ fst (evalHand (mkHeap [ace_of_clubs; king_of_hearts; king_of_hearts] []))
        = raw_score [ace_of_clubs; king_of_hearts; king_of_hearts] - 10 * Z.of_nat k)
  /\ Z.abs (fst (evalHand (mkHeap [ace_of_clubs; king_of_hearts; king_of_hearts] [])))
     <= 2 ^ 53.
Proof.
  assert (Hsafe : safe_hand [ace_of_clubs; king_of_hearts; king_of_hearts])
    by (vm_compute; discriminate).
  pose proof (evalHand_bounds [ace_of_clubs; king_of_hearts; king_of_hearts] [] Hsafe)
    as (Hk & _ & _ & _ & _ & Habs).
  exact (conj Hk Habs).
Defined.

(** A hand of built cards that an array can hold (fewer than 2^32 cards) is
    within the exact range. *)
Lemma built_hand_is_safe cs :
  Forall built cs -> Z.of_nat (length cs) < 2 ^ 32 -> safe_hand cs.
Proof.
  intros Hcs Hlen. unfold safe_hand.
  assert (Hsum : total_magnitude cs + 10 * Z.of_nat (ace_count cs)
                 <= 21 * Z.of_nat (length cs)).
  { clear Hlen. induction Hcs as [| c cs Hc _ IH]; [cbn; lia |].
    rewrite ace_count_cons. unfold total_magnitude in *. cbn [foldr length].
    assert (magnitude c <= 11 /\
            ((if String.eqb (Card.rank c) "ace" then 1 else 0) <= 1)%nat) as [Hm Ha].
    { unfold magnitude.
      destruct (built_inv c Hc) as [[He Hv] | [He (n & Hv & Hn)]];
        rewrite He, Hv; cbn; lia. }
    lia. }
  change (2 ^ 32) with 4294967296 in Hlen.
  change (2 ^ 53) with 9007199254740992. lia.
Qed.

(** ** More on the cut point *)

(** [pastCutoff] looks at the number of cards only, not at the cards. *)
Lemma pastCutoff_by_length s :
  fst (Shoe.pastCutoff s)
  = fst (Shoe.pastCutoff
           (Shoe.mk (replicate (length (Shoe.cards s)) ace_of_clubs)
                    (Shoe.numDecks s) (Shoe.cutoff s))).
Proof.
  unfold Shoe.pastCutoff. cbn [fst Shoe.cards Shoe.numDecks Shoe.cutoff].
  rewrite length_replicate. reflexivity.
Qed.

Lemma pastCutoff_up_to_8_decks :
  forallb (fun k =>
    forallb (fun n =>
      Bool.eqb
        (fst (Shoe.pastCutoff
                (Shoe.mk (replicate n ace_of_clubs) (Z.of_nat k) 0.75%float)))
        (100 * Z.of_nat n <? 52 * Z.of_nat k))
      (seq 0 (52 * k + 1)))
    (seq 1 8) = true.
Proof. vm_compute. reflexivity. Qed.

(** X14: with the cutoff 0.75 that a shoe gets when none is given, a shoe
    for 1 to 8 decks that holds no more than its [52 * numDecks] cards is
    past the cut point exactly when fewer than one card in a hundred is
    left ([100 * cards.length < 52 * numDecks]): the share compared with
    0.75 is on the scale from 0 to 100.  With one deck that is the empty
    shoe only. *)
Theorem pastCutoff_with_the_default_cutoff s :
  1 <= Shoe.numDecks s <= 8 ->
  Shoe.cutoff s = 0.75%float ->
  Z.of_nat (length (Shoe.cards s)) <= 52 * Shoe.numDecks s ->
  (fst (Shoe.pastCutoff s) = true
   <-> 100 * Z.of_nat (length (Shoe.cards s)) < 52 * Shoe.numDecks s).
Proof.
  intros Hk Hc Hn. rewrite pastCutoff_by_length, Hc.
  pose proof pastCutoff_up_to_8_decks as Hall.
  rewrite forallb_forall in Hall.
  specialize (Hall (Z.to_nat (Shoe.numDecks s))).
  rewrite forallb_forall in Hall.
  specialize (Hall ltac:(apply in_seq; lia) (length (Shoe.cards s))
                   ltac:(apply in_seq; lia)).
  rewrite Z2Nat.id in Hall by lia.
  apply Bool.eqb_prop in Hall. rewrite Hall. apply Z.ltb_lt.
Qed.

Lemma pastCutoff_with_the_default_cutoff_witness :
  fst (Shoe.pastCutoff (shoe_of 1 2)) = true
  <-> 100 * Z.of_nat (length (Shoe.cards (shoe_of 1 2)))
      < 52 * Shoe.numDecks (shoe_of 1 2).
Proof.
  apply (pastCutoff_with_the_default_cutoff (shoe_of 1 2)).
  - cbn. lia.
  - reflexivity.
  - vm_compute. discriminate.
Defined.

(** ** More on the deck *)

(** X15: [createDeck] does not clear the deck: it returns on any deck and
    puts the 52 built cards after the cards the deck holds, so a second call
    leaves every built card twice, 104 cards more than at the start. *)
Theorem createDeck_twice d :
  exists d1 d2,
    Deck.createDeck d = Some d1
    /\ Deck.createDeck d1 = Some d2
    /\ Deck.cards d1 = Deck.cards d ++ built_cards
    /\ Deck.cards d2 = Deck.cards d ++ built_cards ++ built_cards
    /\ length (Deck.cards d2) = (length (Deck.cards d) + 104)%nat.
Proof.
  eexists _, _. split; [apply createDeck_appends |].
  split; [apply createDeck_appends |]. cbn [Deck.cards].
  rewrite <- built_cards_table.
  split; [reflexivity |]. split; [rewrite <- app_assoc; reflexivity |].
  rewrite !length_app, length_built_cards. lia.
Qed.

Lemma image_names_all_differ :
  forallb (fun c =>
    forallb (fun c' =>
      implb (String.eqb (Card.image_name c) (Card.image_name c'))
            (bool_decide (c = c')))
      built_cards)
    built_cards = true.
Proof. vm_compute. reflexivity. Qed.

(** X16: the image name the constructor of [Card] derives from the first
    letters of rank and suit tells the cards of a built deck apart: no two
    of the 52 cards have the same image name, and each name is the two
    letters in upper case followed by [.png]. *)
Theorem image_names_of_the_deck :
  NoDup (Card.image_name <$> built_cards)
  /\ (forall c c',
        built c -> built c' ->
        Card.image_name c = Card.image_name c' -> c = c')
  /\ (forall c, built c ->
        Card.image_name c
        = JS.toUpperCase (substring 0 1 (Card.rank c) +:+ substring 0 1 (Card.suit c))
          +:+ ".png").
Proof.
  split; [apply (bool_decide_unpack _); vm_compute; exact I |]. split.
  - intros c c' Hc Hc' Himg.
    pose proof image_names_all_differ as Hall.
    rewrite forallb_forall in Hall.
    specialize (Hall c ltac:(apply list_elem_of_In, Hc)).
    rewrite forallb_forall in Hall.
    specialize (Hall c' ltac:(apply list_elem_of_In, Hc')).
    rewrite Himg, String.eqb_refl in Hall. cbn [implb] in Hall.
    apply (bool_decide_eq_true_1 _ Hall).
  - intros c Hc.
    assert (Hall : forallb (fun c => String.eqb (Card.image_name c)
              (JS.toUpperCase (substring 0 1 (Card.rank c)
                               +:+ substring 0 1 (Card.suit c)) +:+ ".png"))
              built_cards = true) by (vm_compute; reflexivity).
    rewrite forallb_forall in Hall.
    apply String.eqb_eq, Hall, list_elem_of_In, Hc.
Qed.
